(** * CodeScribe: the MCP protocol engine of [mcp-server.js]

    A shallow embedding of the JSON-RPC dispatcher, its tool and resource
    handlers and the token counters of [tokenCounters.js], followed by the
    properties of the engine stated over that embedding.

    Conventions of the embedding:
    - a JavaScript string is a [string], one character for each code unit,
      so that its [length] property is [String.length];
    - a message is a parsed line that is an object; its envelope fields
      ([jsonrpc], [id], [method], the [name] parameter) are scalar JSON
      values, [jsval], with [VUndefined] for a missing property; numbers are
      the integers;
    - the [input] object of a tool call is read through the properties its
      handler destructures, typed as the tool's [inputSchema] declares them,
      each of them optional; the settings object is read through
      [ignorePatterns], an array of strings, and [anthropicApiKey], a string
      that may be missing;
    - an [async] method is a program [prog] whose [Call] nodes are the places
      where it hands control to a collaborator, and whose [Tick] nodes are the
      places where it waits for one of its own [async] methods;
    - logging to the console is left out. *)

From Stdlib Require Import ZArith QArith.QArith_base QArith.Qround.
From stdpp Require Import base decidable strings list pretty gmap.

Local Open Scope Z_scope.

(** ** JavaScript scalars *)

Inductive jsval :=
| VUndefined
| VNull
| VBool (b : bool)
| VNum (n : Z)
| VStr (s : string).

#[global] Instance jsval_eq_dec : EqDecision jsval.
Proof. solve_decision. Defined.

(** [ToBoolean]: what [if (v)], [!v] and [v || w] test. *)
Definition truthy (v : jsval) : bool :=
  match v with
  | VUndefined | VNull => false
  | VBool b => b
  | VNum n => negb (Z.eqb n 0)
  | VStr s => negb (String.eqb s "")
  end.

(** [a === b], also the comparison a [switch] makes. *)
Definition strict_eq (a b : jsval) : bool := bool_decide (a = b).

(** [`${v}`]. A number is printed with all its digits, which is what the
    code prints for a safe integer; see [printable]. *)
Definition template (v : jsval) : string :=
  match v with
  | VUndefined => "undefined"
  | VNull => "null"
  | VBool true => "true"
  | VBool false => "false"
  | VNum n => pretty n
  | VStr s => s
  end.

(** [Number.MAX_SAFE_INTEGER] *)
Definition MAX_SAFE_INTEGER : Z := 2 ^ 53 - 1.

(** The values for which [template] is the text the code prints: every
    value but a number beyond the safe integers, which the code rounds and,
    from 10^21 on, prints in exponent form. *)
Definition printable (v : jsval) : bool :=
  match v with
  | VNum n => Z.abs n <=? MAX_SAFE_INTEGER
  | _ => true
  end.

(** Truthiness of an optional string property. *)
Definition truthy_str (o : option string) : bool :=
  match o with
  | Some s => negb (String.eqb s "")
  | None => false
  end.

(** ** Data of the engine *)

Module Settings.
(** The settings object shared with the host application. [other] holds
    the properties the engine copies but never inspects. *)
Record t := mk {
  ignorePatterns : list string;
  anthropicApiKey : option string;
  other : gmap string jsval
}.

Definition with_ignorePatterns (p : list string) (s : t) : t :=
  mk p (anthropicApiKey s) (other s).
Definition with_anthropicApiKey (k : option string) (s : t) : t :=
  mk (ignorePatterns s) k (other s).
End Settings.

Module Input.
(** The [input] of a [tools/call]: every property some handler reads. *)
Record t := mk {
  folderPath : option string;
  selectedPaths : option (list string);
  ignorePatterns : option (list string);
  text : option string;
  model : option string;
  repoUrl : option string;
  securityCheck : option bool;
  style : option string
}.

Definition empty : t := mk None None None None None None None None.

Definition with_model (m : option string) (i : t) : t :=
  mk (folderPath i) (selectedPaths i) (ignorePatterns i) (text i) m
     (repoUrl i) (securityCheck i) (style i).
End Input.

Module Params.
Record t := mk { name : jsval; input : option Input.t }.
Definition empty : t := mk VUndefined None.
End Params.

Module Message.
Record t := mk {
  jsonrpc : jsval;
  id : jsval;
  method : jsval;
  params : option Params.t
}.
End Message.

(** A node of the tree the directory scanner returns. *)
Inductive item :=
| Item (type : string) (path : string) (children : option (list item)).

Record Stats := mkStats {
  characterCount : Z;
  openAiTokens : Z;
  claudeTokens : Z
}.

Inductive tool_result :=
| GenerateMarkdownResult (success : bool) (markdownContent : string) (stats : Stats)
| PackResult (content : string) (stats : Stats)
| CountTokensResult (success : bool) (stats : Stats)
| DirectoryStructureResult (success : bool) (directoryStructure : item).

Record tool_descriptor := mkTool {
  tool_name : string;
  tool_properties : list (string * string);
  tool_required : list string
}.

Inductive result :=
| InitializeResult (serverName serverVersion protocolVersion : string)
    (tools resources prompts roots : bool)
| EmptyResult
| ToolsList (tools : list tool_descriptor)
| ToolCallResult (r : tool_result)
| ResourcesList (resources : list (string * list (string * string)))
| ResourceContent (content : Settings.t).

Inductive response :=
| ResultResponse (id : jsval) (r : result)
| ErrorResponse (id : jsval) (code : Z) (message : string).

Definition response_id (r : response) : jsval :=
  match r with
  | ResultResponse i _ => i
  | ErrorResponse i _ _ => i
  end.

Definition is_result (r : response) : bool :=
  match r with
  | ResultResponse _ _ => true
  | ErrorResponse _ _ _ => false
  end.

Module Server.
(** The fields of [McpServer] the handlers use, the module-level [tiktoken]
    binding of the token counters, and what has been written to the output
    stream. *)
Record t := mk {
  settings : Settings.t;
  repoMixIntegration : bool;
  nextId : Z;
  tiktoken : bool;
  stdout : list response
}.

Definition with_settings (s : Settings.t) (w : t) : t :=
  mk s (repoMixIntegration w) (nextId w) (tiktoken w) (stdout w).
Definition with_nextId (n : Z) (w : t) : t :=
  mk (settings w) (repoMixIntegration w) n (tiktoken w) (stdout w).
Definition write (r : response) (w : t) : t :=
  mk (settings w) (repoMixIntegration w) (nextId w) (tiktoken w)
     (stdout w ++ [r]).
End Server.

(** ** Collaborators *)

(** The calls that leave the engine: the scanner and the assembler of
    [markdownGeneratorFunctions], the two entry points of the packaging
    integration, the HTTP request of [countClaudeTokensWithAPI] and the
    tokenizer of [countOpenAITokens]. *)
Inductive call :=
| getDirectoryStructure (folderPath : string) (ignorePatterns : list string)
| generateMarkdownContent (folderPath : string) (paths : list string)
| processRemoteRepository (repoUrl : string) (securityCheck : bool) (style : string)
| processLocalRepositoryWithSecurity (folderPath : string) (style : string)
| axios_post_tokenize (text : string) (apiKey : string)
| tiktoken_encode (encoding : string) (text : string).

#[global] Instance call_eq_dec : EqDecision call.
Proof. solve_decision. Defined.

(** What a call answers with. The HTTP request answers with
    [response.data.tokens] when [response.data && response.data.tokens]
    holds. *)
Definition reply (c : call) : Type :=
  match c with
  | getDirectoryStructure _ _ => item
  | generateMarkdownContent _ _ => string
  | processRemoteRepository _ _ _ => string
  | processLocalRepositoryWithSecurity _ _ => string
  | axios_post_tokenize _ _ => option (list Z)
  | tiktoken_encode _ _ => list Z
  end.

(** The tokenizer is the one call that returns without suspending. *)
Definition is_sync (c : call) : bool :=
  match c with
  | tiktoken_encode _ _ => true
  | _ => false
  end.

(** A call returns a value or throws an error with a message. *)
Inductive outcome (A : Type) :=
| Returned (a : A)
| Thrown (message : string).
Arguments Returned {A} a.
Arguments Thrown {A} message.

(** ** Programs *)

Inductive prog (A : Type) : Type :=
| Ret (a : A)
| Throw (message : string)
| Get (k : Server.t → prog A)
| Put (w : Server.t) (k : prog A)
| Call (c : call) (k : outcome (reply c) → prog A)
| Tick (k : prog A).
Arguments Ret {A} a.
Arguments Throw {A} message.
Arguments Get {A} k.
Arguments Put {A} w k.
Arguments Call {A} c k.
Arguments Tick {A} k.

Fixpoint bind {A B} (p : prog A) (f : A → prog B) : prog B :=
  match p with
  | Ret a => f a
  | Throw e => Throw e
  | Get k => Get (λ w, bind (k w) f)
  | Put w k => Put w (bind k f)
  | Call c k => Call c (λ o, bind (k o) f)
  | Tick k => Tick (bind k f)
  end.

#[global] Instance prog_ret : MRet prog := @Ret.
#[global] Instance prog_bind : MBind prog := λ A B f p, bind p f.

(** [try { p } catch (error) { h error.message }] *)
Fixpoint try_catch {A} (p : prog A) (h : string → prog A) : prog A :=
  match p with
  | Ret a => Ret a
  | Throw e => h e
  | Get k => Get (λ w, try_catch (k w) h)
  | Put w k => Put w (try_catch k h)
  | Call c k => Call c (λ o, try_catch (k o) h)
  | Tick k => Tick (try_catch k h)
  end.

(** [try { p } finally { f }] *)
Fixpoint try_finally {A} (p : prog A) (f : prog unit) : prog A :=
  match p with
  | Ret a => bind f (λ _, Ret a)
  | Throw e => bind f (λ _, Throw e)
  | Get k => Get (λ w, try_finally (k w) f)
  | Put w k => Put w (try_finally k f)
  | Call c k => Call c (λ o, try_finally (k o) f)
  | Tick k => Tick (try_finally k f)
  end.

Definition get : prog Server.t := Get Ret.
Definition modify (f : Server.t → Server.t) : prog unit :=
  Get (λ w, Put (f w) (Ret tt)).

(** [await c(...)] on a collaborator, or the plain call of the tokenizer. *)
Definition await (c : call) : prog (reply c) :=
  Call c (λ o, match o with Returned v => Ret v | Thrown e => Throw e end).

(** [await this.m(...)] on an [async] method of the engine: [m] runs up to
    its first suspension at once, and the caller resumes one turn after [m]
    has settled. *)
Definition await_async {A} (p : prog A) : prog A :=
  try_catch (bind p (λ a, Tick (Ret a))) (λ e, Tick (Throw e)).

(** ** Running a request on its own *)

Definition env := ∀ c : call, outcome (reply c).

(** [run e p w calls] runs [p] to its end with no other request in flight,
    the collaborators answering as [e] says; it returns how [p] ended, the
    state it left and the calls it made, oldest first. *)
Fixpoint run {A} (e : env) (p : prog A) (w : Server.t) (calls : list call)
  : outcome A * Server.t * list call :=
  match p with
  | Ret a => (Returned a, w, calls)
  | Throw m => (Thrown m, w, calls)
  | Get k => run e (k w) w calls
  | Put w' k => run e k w' calls
  | Call c k => run e (k (e c)) w (calls ++ [c])
  | Tick k => run e k w calls
  end.

(** ** The transport writer *)

Definition getNextId : prog Z :=
  w ← get;
  Put (Server.with_nextId (Server.nextId w + 1) w) (Ret (Server.nextId w)).

Definition sendMessage (r : response) : prog unit := modify (Server.write r).

Definition sendResult (id : jsval) (r : result) : prog unit :=
  sendMessage (ResultResponse id r).

Definition sendErrorResponse (id : jsval) (code : Z) (message : string)
  : prog unit :=
  sendMessage (ErrorResponse id code message).

Definition initialize_result : result :=
  InitializeResult "Markdown Generator MCP Server" "1.0.0" "0.1"
    true true false false.

(** [sendInitializeResult(id = null)]: the result goes out under
    [id || this.getNextId()]. *)
Definition sendInitializeResult (id : jsval) : prog unit :=
  let id := match id with VUndefined => VNull | _ => id end in
  i ← (if truthy id then Ret id else n ← getNextId; Ret (VNum n));
  sendResult i initialize_result.

(** [start()], without the subscription to the input stream. *)
Definition start : prog unit := sendInitializeResult VUndefined.

(** ** Token counters *)

Definition modelToEncoding : gmap string string :=
  list_to_map [
    ("gpt-4o", "cl100k_base");
    ("gpt-4", "cl100k_base");
    ("gpt-3.5-turbo", "cl100k_base");
    ("text-embedding-ada-002", "cl100k_base");
    ("gpt-3", "p50k_base");
    ("text-davinci-003", "p50k_base");
    ("text-davinci-002", "p50k_base");
    ("davinci", "p50k_base")
  ].

Definition text_length (text : string) : Z := Z.of_nat (String.length text).
Arguments text_length : simpl never.

(** The properties every object literal inherits from [Object.prototype];
    each is a function or an object, so truthy, and no string. *)
Definition Object_prototype : list string :=
  ["constructor"; "__defineGetter__"; "__defineSetter__"; "hasOwnProperty";
   "__lookupGetter__"; "__lookupSetter__"; "isPrototypeOf";
   "propertyIsEnumerable"; "toString"; "valueOf"; "__proto__";
   "toLocaleString"].

(** [modelToEncoding[model] || "cl100k_base"]: the encoding of the table,
    else what the object inherits under that name, which is no string
    ([None]), else the default. *)
Definition encoding_of (model : string) : option string :=
  match modelToEncoding !! model with
  | Some encoding => Some encoding
  | None =>
      if bool_decide (model ∈ Object_prototype) then None
      else Some "cl100k_base"
  end.

(** [tiktoken.getEncoding] throws when it is given anything but the name of
    an encoding; whether it knows a name, and what [encode] does, is up to
    the tokenizer. *)
Definition countOpenAITokens (text : string) (model : string) : prog Z :=
  try_catch
    (w ← get;
     if negb (Server.tiktoken w) then Ret (-1)
     else
       match encoding_of model with
       | Some encoding =>
           tokens ← await (tiktoken_encode encoding text);
           Ret (Z.of_nat (length tokens))
       | None => Throw "Unknown encoding"
       end)
    (λ _, Ret (-1)).

Definition Math_ceil (q : Q) : Z := Qceiling q.
Arguments Math_ceil : simpl never.

(** [Math.ceil(text.length / 4)] *)
Definition countClaudeTokensApprox (text : string) : prog Z :=
  try_catch (Ret (Math_ceil (text_length text # 4))) (λ _, Ret (-1)).

Definition countClaudeTokensWithAPI (text : string) (apiKey : option string)
  : prog Z :=
  if negb (truthy_str apiKey) then countClaudeTokensApprox text
  else
    try_catch
      (tokens ← await (axios_post_tokenize text (default "" apiKey));
       match tokens with
       | Some ts => Ret (Z.of_nat (length ts))
       | None => countClaudeTokensApprox text
       end)
      (λ _, countClaudeTokensApprox text).

(** ** Handlers *)

Definition calculateStats (text : string) : prog Stats :=
  let characterCount := text_length text in
  openAiTokens ← try_catch (countOpenAITokens text "gpt-4o") (λ _, Ret (-1));
  claudeTokens ←
    try_catch
      (w ← get;
       let apiKey := Settings.anthropicApiKey (Server.settings w) in
       if truthy_str apiKey
       then await_async (countClaudeTokensWithAPI text apiKey)
       else countClaudeTokensApprox text)
      (λ _, Ret (-1));
  Ret (mkStats characterCount openAiTokens claudeTokens).

(** The [TypeError] of [const { p, ... } = input] when the request carries
    no [input]. *)
Definition destructure_error (p : string) : string :=
  "Cannot destructure property '" +:+ p +:+ "' of 'input' as it is undefined.".

Fixpoint collectFilePaths (it : item) : list string :=
  match it with
  | Item type path children =>
      if String.eqb type "file" then [path]
      else
        match children with
        | Some cs =>
            (fix each (l : list item) : list string :=
               match l with
               | [] => []
               | c :: l' => collectFilePaths c ++ each l'
               end) cs
        | None => []
        end
  end.

Definition handleGenerateMarkdown (input : option Input.t)
  : prog tool_result :=
  match input with
  | None => Throw (destructure_error "folderPath")
  | Some i =>
      if negb (truthy_str (Input.folderPath i))
      then Throw "folderPath is required"
      else
        let folderPath := default "" (Input.folderPath i) in
        originalIgnorePatterns ←
          match Input.ignorePatterns i with
          | Some ignorePatterns =>
              w ← get;
              let original := Settings.ignorePatterns (Server.settings w) in
              Put (Server.with_settings
                     (Settings.with_ignorePatterns ignorePatterns
                        (Server.settings w)) w)
                  (Ret (Some original))
          | None => Ret None
          end;
        try_finally
          (pathsToProcess ←
             match Input.selectedPaths i with
             | Some paths => Ret paths
             | None =>
                 w ← get;
                 directoryStructure ←
                   await (getDirectoryStructure folderPath
                            (Settings.ignorePatterns (Server.settings w)));
                 Ret (collectFilePaths directoryStructure)
             end;
           markdownContent ←
             await (generateMarkdownContent folderPath pathsToProcess);
           stats ← await_async (calculateStats markdownContent);
           Ret (GenerateMarkdownResult true markdownContent stats))
          (match Input.ignorePatterns i, originalIgnorePatterns with
           | Some _, Some original =>
               modify (λ w, Server.with_settings
                              (Settings.with_ignorePatterns original
                                 (Server.settings w)) w)
           | _, _ => Ret tt
           end)
  end.

Definition handleCountTokens (input : option Input.t) : prog tool_result :=
  match input with
  | None => Throw (destructure_error "text")
  | Some i =>
      if negb (truthy_str (Input.text i)) then Throw "text is required"
      else
        let text := default "" (Input.text i) in
        stats ← await_async (calculateStats text);
        Ret (CountTokensResult true stats)
  end.

Definition handleGetDirectoryStructure (input : option Input.t)
  : prog tool_result :=
  match input with
  | None => Throw (destructure_error "folderPath")
  | Some i =>
      if negb (truthy_str (Input.folderPath i))
      then Throw "folderPath is required"
      else
        let folderPath := default "" (Input.folderPath i) in
        w ← get;
        let patternsToUse :=
          default (Settings.ignorePatterns (Server.settings w))
                  (Input.ignorePatterns i) in
        directoryStructure ←
          await (getDirectoryStructure folderPath patternsToUse);
        Ret (DirectoryStructureResult true directoryStructure)
  end.

Definition handlePackRemoteRepository (input : option Input.t)
  : prog tool_result :=
  w ← get;
  if negb (Server.repoMixIntegration w)
  then Throw "RepoMix integration not initialized"
  else
    match input with
    | None => Throw (destructure_error "repoUrl")
    | Some i =>
        let securityCheck := default false (Input.securityCheck i) in
        let style := default "markdown" (Input.style i) in
        if negb (truthy_str (Input.repoUrl i))
        then Throw "Missing repoUrl parameter"
        else
          let repoUrl := default "" (Input.repoUrl i) in
          try_catch
            (content ←
               await (processRemoteRepository repoUrl securityCheck style);
             stats ← await_async (calculateStats content);
             Ret (PackResult content stats))
            (λ e, Throw ("Error processing remote repository: " +:+ e))
    end.

Definition handleProcessWithSecurity (input : option Input.t)
  : prog tool_result :=
  w ← get;
  if negb (Server.repoMixIntegration w)
  then Throw "RepoMix integration not initialized"
  else
    match input with
    | None => Throw (destructure_error "folderPath")
    | Some i =>
        let style := default "markdown" (Input.style i) in
        if negb (truthy_str (Input.folderPath i))
        then Throw "Missing folderPath parameter"
        else
          let folderPath := default "" (Input.folderPath i) in
          try_catch
            (content ←
               await (processLocalRepositoryWithSecurity folderPath style);
             stats ← await_async (calculateStats content);
             Ret (PackResult content stats))
            (λ e, Throw ("Error processing with security: " +:+ e))
    end.

(** ** The capability registry *)

Definition tools : list tool_descriptor := [
  mkTool "generate_markdown"
    [("folderPath", "string"); ("selectedPaths", "array");
     ("ignorePatterns", "array")]
    ["folderPath"];
  mkTool "pack_remote_repository"
    [("repoUrl", "string"); ("securityCheck", "boolean"); ("style", "string")]
    ["repoUrl"];
  mkTool "process_with_security"
    [("folderPath", "string"); ("style", "string")]
    ["folderPath"];
  mkTool "count_tokens"
    [("text", "string"); ("model", "string")]
    ["text"];
  mkTool "get_directory_structure"
    [("folderPath", "string"); ("ignorePatterns", "array")]
    ["folderPath"]
].

Definition resources : list (string * list (string * string)) := [
  ("settings", [("ignorePatterns", "array"); ("anthropicApiKey", "string")])
].

Definition handleToolsList (message : Message.t) : prog unit :=
  sendResult (Message.id message) (ToolsList tools).

Definition handleResourcesList (message : Message.t) : prog unit :=
  sendResult (Message.id message) (ResourcesList resources).

(** ** Dispatch *)

Definition handleToolsCall (message : Message.t) : prog unit :=
  let params := default Params.empty (Message.params message) in
  let name := Params.name params in
  let input := Params.input params in
  if negb (truthy name)
  then sendErrorResponse (Message.id message) (-32602) "Missing tool name"
  else
    try_catch
      (let respond (handler : prog tool_result) : prog unit :=
         r ← await_async handler;
         sendResult (Message.id message) (ToolCallResult r) in
       if strict_eq name (VStr "generate_markdown")
       then respond (handleGenerateMarkdown input)
       else if strict_eq name (VStr "pack_remote_repository")
       then respond (handlePackRemoteRepository input)
       else if strict_eq name (VStr "process_with_security")
       then respond (handleProcessWithSecurity input)
       else if strict_eq name (VStr "count_tokens")
       then respond (handleCountTokens input)
       else if strict_eq name (VStr "get_directory_structure")
       then respond (handleGetDirectoryStructure input)
       else sendErrorResponse (Message.id message) (-32601)
              ("Unknown tool: " +:+ template name))
      (λ e, sendErrorResponse (Message.id message) (-32603)
              ("Error handling tool call: " +:+ e)).

(** The redaction marker of [resources/get]. *)
Definition REDACTED : string := "[REDACTED]".

Definition handleResourcesGet (message : Message.t) : prog unit :=
  let params := default Params.empty (Message.params message) in
  let name := Params.name params in
  if negb (truthy name)
  then sendErrorResponse (Message.id message) (-32602) "Missing resource name"
  else
    try_catch
      (if strict_eq name (VStr "settings")
       then
         w ← get;
         let content := Server.settings w in
         let content :=
           if truthy_str (Settings.anthropicApiKey content)
           then Settings.with_anthropicApiKey
                  (Some (if truthy_str (Settings.anthropicApiKey content)
                         then REDACTED else ""))
                  content
           else content in
         sendResult (Message.id message) (ResourceContent content)
       else sendErrorResponse (Message.id message) (-32602)
              ("Unknown resource: " +:+ template name))
      (λ e, sendErrorResponse (Message.id message) (-32000)
              ("Error getting resource " +:+ template name +:+ ": " +:+ e)).

Definition handleJsonRpcMessage (message : Message.t) : prog unit :=
  if negb (strict_eq (Message.jsonrpc message) (VStr "2.0"))
  then sendErrorResponse (Message.id message) (-32600) "Invalid Request"
  else if truthy (Message.method message)
  then
    let method := Message.method message in
    try_catch
      (if strict_eq method (VStr "initialize")
       then sendInitializeResult (Message.id message)
       else if strict_eq method (VStr "shutdown")
       then sendResult (Message.id message) EmptyResult
       else if strict_eq method (VStr "tools/list")
       then handleToolsList message
       else if strict_eq method (VStr "tools/call")
       then await_async (handleToolsCall message)
       else if strict_eq method (VStr "resources/list")
       then handleResourcesList message
       else if strict_eq method (VStr "resources/get")
       then await_async (handleResourcesGet message)
       else sendErrorResponse (Message.id message) (-32601)
              ("Method not found: " +:+ template method))
      (λ e, sendErrorResponse (Message.id message) (-32000)
              ("Error handling method " +:+ template method +:+ ": " +:+ e))
  else Ret tt.

(** The methods are unfolded by name only. *)
Arguments await_async : simpl never.
Arguments calculateStats : simpl never.
Arguments countOpenAITokens : simpl never.
Arguments countClaudeTokensWithAPI : simpl never.
Arguments countClaudeTokensApprox : simpl never.
Arguments handleGenerateMarkdown : simpl never.
Arguments handleCountTokens : simpl never.
Arguments handleGetDirectoryStructure : simpl never.
Arguments handlePackRemoteRepository : simpl never.
Arguments handleProcessWithSecurity : simpl never.
Arguments handleToolsCall : simpl never.
Arguments handleResourcesGet : simpl never.
Arguments sendInitializeResult : simpl never.

(** ** Requests in flight together *)

(** Where a program stands when it gives the turn back. *)
Inductive paused (A : Type) : Type :=
| Settled (o : outcome A)
| AtCall (c : call) (k : outcome (reply c) → prog A)
| AtTick (k : prog A).
Arguments Settled {A} o.
Arguments AtCall {A} c k.
Arguments AtTick {A} k.

(** One turn of the event loop: [p] runs until it settles or suspends. The
    tokenizer answers within the turn, as [tokenizer] says. *)
Fixpoint run_turn {A} (tokenizer : env) (p : prog A) (w : Server.t)
    (calls : list call) : paused A * Server.t * list call :=
  match p with
  | Ret a => (Settled (Returned a), w, calls)
  | Throw m => (Settled (Thrown m), w, calls)
  | Get k => run_turn tokenizer (k w) w calls
  | Put w' k => run_turn tokenizer k w' calls
  | Call c k =>
      if is_sync c then run_turn tokenizer (k (tokenizer c)) w (calls ++ [c])
      else (AtCall c k, w, calls ++ [c])
  | Tick k => (AtTick k, w, calls)
  end.

Inductive task :=
| Waiting (message : Message.t)
| Running (p : paused unit).

Module Loop.
(** The shared state, one task per message read from the input stream, and
    the collaborator calls made so far, each with the index of the task
    that made it. *)
Record t := mk {
  world : Server.t;
  tasks : list task;
  log : list (nat * call)
}.
End Loop.

Definition initial (w : Server.t) (messages : list Message.t) : Loop.t :=
  Loop.mk w (Waiting <$> messages) [].

(** What the event loop does next: [handleStdinData] hands message [i] to
    [handleJsonRpcMessage] without awaiting it, or the suspended task [i]
    resumes, its pending call answered by [answer]. *)
Inductive action :=
| Start (i : nat)
| Resume (i : nat) (answer : env).

Definition advance (tokenizer : env) (i : nat) (p : prog unit) (l : Loop.t)
  : Loop.t :=
  let '(p', w', calls) := run_turn tokenizer p (Loop.world l) [] in
  Loop.mk w' (<[i := Running p']> (Loop.tasks l))
          (Loop.log l ++ (pair i <$> calls)).

Definition turn (tokenizer : env) (a : action) (l : Loop.t) : option Loop.t :=
  match a with
  | Start i =>
      match Loop.tasks l !! i with
      | Some (Waiting m) => Some (advance tokenizer i (handleJsonRpcMessage m) l)
      | _ => None
      end
  | Resume i answer =>
      match Loop.tasks l !! i with
      | Some (Running (AtCall c k)) => Some (advance tokenizer i (k (answer c)) l)
      | Some (Running (AtTick k)) => Some (advance tokenizer i k l)
      | _ => None
      end
  end.

Fixpoint turns (tokenizer : env) (schedule : list action) (l : Loop.t)
  : option Loop.t :=
  match schedule with
  | [] => Some l
  | a :: schedule' =>
      match turn tokenizer a l with
      | Some l' => turns tokenizer schedule' l'
      | None => None
      end
  end.

(** How often [p] suspends when it runs alone, answered by [e]. *)
Fixpoint suspensions {A} (e : env) (p : prog A) (w : Server.t) : nat :=
  match p with
  | Ret _ | Throw _ => 0
  | Get k => suspensions e (k w) w
  | Put w' k => suspensions e k w'
  | Call c k =>
      (if is_sync c then 0 else 1) + suspensions e (k (e c)) w
  | Tick k => S (suspensions e k w)
  end%nat.

(** ** Requests *)

Definition request (id : jsval) (method : string) (params : option Params.t)
  : Message.t :=
  Message.mk (VStr "2.0") id (VStr method) params.

Definition tools_call (id : jsval) (name : jsval) (input : option Input.t)
  : Message.t :=
  request id "tools/call" (Some (Params.mk name input)).

Definition resources_get (id : jsval) (params : Params.t) : Message.t :=
  request id "resources/get" (Some params).

(** The names the [switch] of [handleToolsCall] knows. *)
Definition tool_names : list string := tool_name <$> tools.

(** The methods the [switch] of [handleJsonRpcMessage] knows. *)
Definition methods : list string :=
  ["initialize"; "shutdown"; "tools/list"; "tools/call"; "resources/list";
   "resources/get"].

(** The override a message asks for: the [ignorePatterns] of its [input]
    when the dispatcher routes it to [handleGenerateMarkdown]. *)
Definition override_of (m : Message.t) : option (list string) :=
  if strict_eq (Message.jsonrpc m) (VStr "2.0")
     && strict_eq (Message.method m) (VStr "tools/call")
  then
    match Message.params m with
    | Some params =>
        if strict_eq (Params.name params) (VStr "generate_markdown")
        then
          match Params.input params with
          | Some i => Input.ignorePatterns i
          | None => None
          end
        else None
    | None => None
    end
  else None.

(** The patterns of the directory scans task [j] has started. *)
Definition scans_of (j : nat) (log : list (nat * call)) : list (list string) :=
  omap (λ entry,
          match entry with
          | (i, getDirectoryStructure _ patterns) =>
              if bool_decide (i = j) then Some patterns else None
          | _ => None
          end) log.

(** The patterns of the directory scans among [calls]. *)
Definition scan_patterns (calls : list call) : list (list string) :=
  omap (λ c,
          match c with
          | getDirectoryStructure _ patterns => Some patterns
          | _ => None
          end) calls.

(** Whether the request, once [handleGenerateMarkdown] has it, scans its
    folder: it names a folder and selects no paths. *)
Definition scans_folder (m : Message.t) : bool :=
  match Message.params m with
  | Some params =>
      match Params.input params with
      | Some i =>
          truthy_str (Input.folderPath i)
          && match Input.selectedPaths i with
             | Some _ => false
             | None => true
             end
      | None => false
      end
  | None => false
  end.

(** The state and the calls a run ends with. *)
Definition final_state {A} (r : outcome A * Server.t * list call) : Server.t :=
  r.1.2.
Definition calls_made {A} (r : outcome A * Server.t * list call) : list call :=
  r.2.

(** The responses a run of [p] from [w] writes. *)
Definition responses {A} (e : env) (p : prog A) (w : Server.t)
  : list response :=
  drop (length (Server.stdout w)) (Server.stdout (final_state (run e p w []))).

(** ** What a program may do *)

(** [obeys puts ok p]: every call [p] can make satisfies [ok], and [p]
    writes the state only if [puts] holds. *)
Fixpoint obeys {A} (puts : Prop) (ok : call → Prop) (p : prog A) : Prop :=
  match p with
  | Ret _ | Throw _ => True
  | Get k => ∀ w, obeys puts ok (k w)
  | Put _ k => puts ∧ obeys puts ok k
  | Call c k => ok c ∧ ∀ o, obeys puts ok (k o)
  | Tick k => obeys puts ok k
  end.

Definition is_scan (c : call) : Prop :=
  match c with
  | getDirectoryStructure _ _ => True
  | _ => False
  end.

Definition scans_with (patterns : list string) (c : call) : Prop :=
  match c with
  | getDirectoryStructure _ used => used = patterns
  | _ => True
  end.

(** A program that starts no directory scan. *)
Definition quiet {A} (p : prog A) : Prop := obeys True (λ c, ¬ is_scan c) p.

Definition quiet_paused {A} (p : paused A) : Prop :=
  match p with
  | Settled _ => True
  | AtCall c k => ∀ o, quiet (k o)
  | AtTick k => quiet k
  end.

(** [guarded patterns p w]: in the turn [p] runs from [w], it scans with
    [patterns] only, and what is left of it after the turn starts no scan. *)
Fixpoint guarded {A} (patterns : list string) (p : prog A) (w : Server.t)
  : Prop :=
  match p with
  | Ret _ | Throw _ => True
  | Get k => guarded patterns (k w) w
  | Put w' k => guarded patterns k w'
  | Call c k =>
      scans_with patterns c
      ∧ ∀ o, if is_sync c then guarded patterns (k o) w else quiet (k o)
  | Tick k => quiet k
  end.

(** What holds of the event loop after every turn: a request that asks for
    an override is still waiting, or has nothing left that scans; and the
    scans it has started used its own override. *)
Definition loop_inv (messages : list Message.t) (l : Loop.t) : Prop :=
  ∀ j m patterns,
    messages !! j = Some m → override_of m = Some patterns →
    match Loop.tasks l !! j with
    | Some (Waiting m') => m' = m
    | Some (Running p) => quiet_paused p
    | None => False
    end
    ∧ Forall (λ entry, entry.1 = j → scans_with patterns entry.2) (Loop.log l).

(** The same with the scans counted: a request that asks for an override
    has started no scan while it waits, and once it runs it has started the
    one scan it makes, with its own override, or none when it makes none. *)
Definition loop_scans (messages : list Message.t) (l : Loop.t) : Prop :=
  ∀ j m patterns,
    messages !! j = Some m → override_of m = Some patterns →
    match Loop.tasks l !! j with
    | Some (Waiting m') => m' = m ∧ scans_of j (Loop.log l) = []
    | Some (Running p) =>
        quiet_paused p
        ∧ scans_of j (Loop.log l)
          = (if scans_folder m then [patterns] else [])
    | None => False
    end.

(** ** A scenario *)

(** Two requests with different overrides, in flight together. *)
Module Scenario.
(** A disk with one file, no network. *)
Definition disk : env := λ c,
  match c with
  | getDirectoryStructure folder _ =>
      Returned (Item "directory" folder (Some [Item "file" "a.js" None]))
  | generateMarkdownContent _ _ => Returned "## a.js"
  | processRemoteRepository _ _ _ => Thrown "offline"
  | processLocalRepositoryWithSecurity _ _ => Thrown "offline"
  | axios_post_tokenize _ _ => Thrown "offline"
  | tiktoken_encode _ _ => Returned [1; 2]
  end.

Definition generate (id : Z) (folder : string) (patterns : list string)
  : Message.t :=
  tools_call (VNum id) (VStr "generate_markdown")
    (Some (Input.mk (Some folder) None (Some patterns) None None None None
                    None)).

Definition server : Server.t :=
  Server.mk (Settings.mk ["node_modules"] None ∅) false 2 true [].

Definition requests : list Message.t :=
  [generate 1 "/a" ["*.md"]; generate 2 "/b" ["*.log"]].

(** Both requests are started before either scan has answered; the first
    then runs to its end, and the second after it. *)
Definition overlapping : list action :=
  [Start 0; Start 1] ++ replicate 5 (Resume 0 disk)
                     ++ replicate 5 (Resume 1 disk).
End Scenario.

(** * The rest of the engine *)

(** ** What a message demands *)

(** A message is left unanswered only when its envelope is valid and it
    names no method. *)
Definition demands_response (m : Message.t) : bool :=
  negb (strict_eq (Message.jsonrpc m) (VStr "2.0"))
  || truthy (Message.method m).

(** The one request the engine answers under an id of its own: an
    [initialize] whose id is falsy. *)
Definition takes_fresh_id (m : Message.t) : bool :=
  strict_eq (Message.jsonrpc m) (VStr "2.0")
  && strict_eq (Message.method m) (VStr "initialize")
  && negb (truthy (Message.id m)).

(** ** What [JSON.parse] hands to the dispatcher *)

(** [null], which has no properties, or a value that is read through its
    properties [jsonrpc], [id], [method] and [params]: a property that is
    not there is [undefined], and a number, a string, a boolean or an array
    has none of the four. The properties that are there are scalars. *)
Inductive parsed :=
| JNull
| JValue (message : Message.t).

(** [this.handleJsonRpcMessage(message)] on what [JSON.parse] returned:
    reading [message.jsonrpc] of [null] throws before anything is sent. *)
Definition handleParsedMessage (message : parsed) : prog unit :=
  match message with
  | JNull => Throw "Cannot read properties of null (reading 'jsonrpc')"
  | JValue m => handleJsonRpcMessage m
  end.

(** ** The tools behind [tools/call] *)

(** The handler the [switch] of [handleToolsCall] binds to a name. *)
Definition tool_handler (name : string) (input : option Input.t)
  : option (prog tool_result) :=
  if String.eqb name "generate_markdown"
  then Some (handleGenerateMarkdown input)
  else if String.eqb name "pack_remote_repository"
  then Some (handlePackRemoteRepository input)
  else if String.eqb name "process_with_security"
  then Some (handleProcessWithSecurity input)
  else if String.eqb name "count_tokens"
  then Some (handleCountTokens input)
  else if String.eqb name "get_directory_structure"
  then Some (handleGetDirectoryStructure input)
  else None.

(** Whether [input] carries a truthy value for the property [p]. *)
Definition provides (input : option Input.t) (p : string) : bool :=
  match input with
  | None => false
  | Some i =>
      if String.eqb p "folderPath" then truthy_str (Input.folderPath i)
      else if String.eqb p "selectedPaths"
      then bool_decide (is_Some (Input.selectedPaths i))
      else if String.eqb p "ignorePatterns"
      then bool_decide (is_Some (Input.ignorePatterns i))
      else if String.eqb p "text" then truthy_str (Input.text i)
      else if String.eqb p "model" then truthy_str (Input.model i)
      else if String.eqb p "repoUrl" then truthy_str (Input.repoUrl i)
      else if String.eqb p "securityCheck"
      then default false (Input.securityCheck i)
      else if String.eqb p "style" then truthy_str (Input.style i)
      else false
  end.

(** ** What a program writes *)

(** [keeps R t p w]: running from [w], in this turn and in every later one,
    [p] replaces the state only by states that [R] relates to the state
    replaced; it throws only if [t] holds. The state a later turn starts
    from is not known. *)
Fixpoint keeps {A} (R : Server.t → Server.t → Prop) (t : bool) (p : prog A)
    (w : Server.t) : Prop :=
  match p with
  | Ret _ => True
  | Throw _ => t = true
  | Get k => keeps R t (k w) w
  | Put w' k => R w w' ∧ keeps R t k w'
  | Call c k =>
      ∀ o, if is_sync c then keeps R t (k o) w else ∀ w', keeps R t (k o) w'
  | Tick k => ∀ w', keeps R t k w'
  end.

Definition keeps_paused {A} (R : Server.t → Server.t → Prop) (t : bool)
    (p : paused A) : Prop :=
  match p with
  | Settled (Returned _) => True
  | Settled (Thrown _) => t = true
  | AtCall c k => ∀ o w, keeps R t (k o) w
  | AtTick k => ∀ w, keeps R t k w
  end.

Definition same_output (w w' : Server.t) : Prop :=
  Server.stdout w' = Server.stdout w.

Definition same_settings (w w' : Server.t) : Prop :=
  Server.settings w' = Server.settings w.

(** [owes P t p w]: on every path [p] writes one response, which satisfies
    [P], and then returns having written nothing else; or, if [t] holds, it
    throws having written nothing. *)
Fixpoint owes {A} (P : response → Prop) (t : bool) (p : prog A)
    (w : Server.t) : Prop :=
  match p with
  | Ret _ => False
  | Throw _ => t = true
  | Get k => owes P t (k w) w
  | Put w' k =>
      (same_output w w' ∧ owes P t k w')
      ∨ (∃ r, P r ∧ w' = Server.write r w ∧ keeps same_output false k w')
  | Call c k =>
      ∀ o, if is_sync c then owes P t (k o) w else ∀ w', owes P t (k o) w'
  | Tick k => ∀ w', owes P t k w'
  end.

Definition owes_paused {A} (P : response → Prop) (t : bool) (p : paused A)
  : Prop :=
  match p with
  | Settled (Returned _) => False
  | Settled (Thrown _) => t = true
  | AtCall c k => ∀ o w, owes P t (k o) w
  | AtTick k => ∀ w, owes P t k w
  end.

(** The response that answers a message: it carries the id of the message,
    unless the engine answers under an id of its own. *)
Definition answers (m : Message.t) (r : response) : Prop :=
  takes_fresh_id m = false → response_id r = Message.id m.

Definition settled (t : task) : Prop :=
  match t with
  | Running (Settled _) => True
  | _ => False
  end.

(** What is left to do for the message [m], given the response [a] its
    task has written, if any. *)
Definition due {A} (m : Message.t) (a : option response) (p : prog A)
    (w : Server.t) : Prop :=
  match a with
  | None =>
      if demands_response m then owes (answers m) false p w
      else keeps same_output false p w
  | Some r =>
      demands_response m = true ∧ answers m r ∧ keeps same_output false p w
  end.

Definition due_paused {A} (m : Message.t) (a : option response)
    (p : paused A) : Prop :=
  match a with
  | None =>
      if demands_response m then owes_paused (answers m) false p
      else keeps_paused same_output false p
  | Some r =>
      demands_response m = true ∧ answers m r
      ∧ keeps_paused same_output false p
  end.

(** The responses the tasks have written so far, task by task, against
    what their messages demand. *)
Definition accounts (messages : list Message.t) (l : Loop.t)
    (paid : list (option response)) : Prop :=
  ∀ j m,
    messages !! j = Some m →
    match Loop.tasks l !! j, paid !! j with
    | Some (Waiting m'), Some None => m' = m
    | Some (Running p), Some a => due_paused m a p
    | _, _ => False
    end.

(** Every task keeps [R], now and later. *)
Definition loop_keeps (R : Server.t → Server.t → Prop) (l : Loop.t) : Prop :=
  Forall (λ t, match t with
               | Waiting m => ∀ w, keeps R false (handleJsonRpcMessage m) w
               | Running p => keeps_paused R false p
               end) (Loop.tasks l).

(** ** Requests that ask for no override *)

Module Plain.
Definition requests : list Message.t :=
  [tools_call (VNum 1) (VStr "get_directory_structure")
     (Some (Input.mk (Some "/a") None (Some ["*.tmp"]) None None None None
                     None));
   tools_call (VNum 2) (VStr "generate_markdown")
     (Some (Input.mk (Some "/b") None None None None None None None))].

Definition interleaved : list action :=
  [Start 1; Start 0; Resume 0 Scenario.disk; Resume 1 Scenario.disk;
   Resume 1 Scenario.disk].
End Plain.

(** The output of the loop is the initial output followed by what the tasks
    have written, each task at most once. *)
Definition ledger (messages : list Message.t) (w : Server.t) (l : Loop.t)
    (paid : list (option response)) : Prop :=
  length (Loop.tasks l) = length messages
  ∧ length paid = length messages
  ∧ (∃ written,
       Server.stdout (Loop.world l) = Server.stdout w ++ written
       ∧ written ≡ₚ omap id paid)
  ∧ accounts messages l paid.

(** ** The message framer *)

(** The line terminator, [\n]. *)
Definition newline : Ascii.ascii := Ascii.ascii_of_nat 10.
Definition LF : string := String newline "".

(** White space as [trim] sees it, among the code units below 256: TAB, LF,
    VT, FF, CR, SP and NBSP. *)
Definition is_white_space (c : Ascii.ascii) : bool :=
  match Ascii.nat_of_ascii c with
  | 9 | 10 | 11 | 12 | 13 | 32 | 160 => true
  | _ => false
  end%nat.

Fixpoint trimStart (s : string) : string :=
  match s with
  | "" => ""
  | String c s' => if is_white_space c then trimStart s' else s
  end.

Fixpoint trimEnd (s : string) : string :=
  match s with
  | "" => ""
  | String c s' =>
      let r := trimEnd s' in
      if String.eqb r "" && is_white_space c then "" else String c r
  end.

Definition trim (s : string) : string := trimEnd (trimStart s).

(** The loop of [handleStdinData]: while the buffer holds a line
    terminator, the line before it is taken off the buffer and, unless
    [line.trim()] is empty, handed to [JSON.parse]. [fuel] bounds the
    number of iterations. *)
Fixpoint drain (fuel : nat) (messageBuffer : string) : list string * string :=
  match fuel with
  | O => ([], messageBuffer)
  | S fuel' =>
      match String.index 0 LF messageBuffer with
      | Some newlineIndex =>
          let line := String.substring 0 newlineIndex messageBuffer in
          let rest :=
            String.substring (newlineIndex + 1)
              (String.length messageBuffer - (newlineIndex + 1))
              messageBuffer in
          let '(lines, final) := drain fuel' rest in
          ((if truthy (VStr (trim line)) then [line] else []) ++ lines, final)
      | None => ([], messageBuffer)
      end
  end.

(** [handleStdinData(data)]: the lines handed to [JSON.parse], in order, and
    the buffer that is left. Every iteration takes at least the terminator
    off the buffer, so the length of the buffer bounds the iterations. *)
Definition handleStdinData (messageBuffer data : string)
  : list string * string :=
  let buffer := messageBuffer +:+ data in
  drain (String.length buffer) buffer.

(** A string that holds no line terminator. *)
Fixpoint unbroken (s : string) : bool :=
  match s with
  | "" => true
  | String c s' => negb (Ascii.eqb c newline) && unbroken s'
  end.

(** What the transport writer does to frame messages: each is followed by
    a line terminator; [tail] is what follows the last terminator. *)
Fixpoint framed (lines : list string) (tail : string) : string :=
  match lines with
  | [] => tail
  | line :: lines' => line +:+ LF +:+ framed lines' tail
  end.

(** Whether the framer hands a line on. *)
Definition handed_on (line : string) : bool := truthy (VStr (trim line)).

(** The lines of a string and what follows its last terminator: the
    inverse of [framed]. *)
Fixpoint frames (s : string) : list string * string :=
  match s with
  | "" => ([], "")
  | String c s' =>
      let '(lines, tail) := frames s' in
      if Ascii.eqb c newline then ("" :: lines, tail)
      else
        match lines with
        | [] => ([], String c tail)
        | line :: lines' => (String c line :: lines', tail)
        end
  end.

Fixpoint blank (s : string) : bool :=
  match s with
  | "" => true
  | String c s' => is_white_space c && blank s'
  end.

(** ** How [generate_markdown] ends *)


(** ** The assembler of the command line

    [generateMarkdownContent] of [markdownGeneratorFunctions] in
    [mcp-cli.js], over [path.relative], [path.extname] and the files as
    [fs.readFile] finds them while the document is assembled. The progress
    lines go to the error stream, not to the document. *)
Module Cli.
Section Files.
Variable relative : string → string → string.
Variable extname : string → string.
Variable readFile : string → outcome string.

(** [s.slice(1)] *)
Definition slice1 (s : string) : string :=
  match s with
  | EmptyString => EmptyString
  | String _ s' => s'
  end.

Definition generateMarkdownContent (rootDir : string)
    (selectedPaths : list string) : string :=
  fold_left
    (λ content filePath,
       let relativePath := relative rootDir filePath in
       let content := content +:+ ("## " +:+ relativePath +:+ LF +:+ LF) in
       match readFile filePath with
       | Returned fileContent =>
           let extension := slice1 (extname filePath) in
           let lang := if truthy (VStr extension) then extension
                       else EmptyString in
           content +:+ ("```" +:+ lang +:+ LF +:+ fileContent +:+ LF
                        +:+ "```" +:+ LF +:+ LF)
       | Thrown message =>
           content +:+ ("Error reading file: " +:+ message +:+ LF +:+ LF)
       end)
    selectedPaths EmptyString.
End Files.
End Cli.

(** * Properties *)

(** ** Scenarios *)

(** [{"jsonrpc":"2.0","id":1,"method":"tools/list"}] is answered under the
    id 1 with the five tool descriptors, in the order of the registry. *)
Example tools_list_scenario :
  responses Scenario.disk
    (handleJsonRpcMessage (request (VNum 1) "tools/list" None))
    Scenario.server
  = [ResultResponse (VNum 1) (ToolsList tools)]
  ∧ tool_names = ["generate_markdown"; "pack_remote_repository";
                  "process_with_security"; "count_tokens";
                  "get_directory_structure"].
Proof. split; reflexivity. Qed.

(** The push of [start] and the answer to an explicit [initialize] carry
    the same payload. *)
Example initialize_twice :
  responses Scenario.disk
    (bind start
       (λ _, handleJsonRpcMessage (request (VStr "init") "initialize" None)))
    (Server.with_nextId 1 Scenario.server)
  = [ResultResponse (VNum 1) initialize_result;
     ResultResponse (VStr "init") initialize_result].
Proof. reflexivity. Qed.

Example unknown_method :
  responses Scenario.disk
    (handleJsonRpcMessage (request (VNum 9) "prompts/list" None))
    Scenario.server
  = [ErrorResponse (VNum 9) (-32601) "Method not found: prompts/list"].
Proof. reflexivity. Qed.

(** A tool that fails is answered with the code -32603. *)
Example tool_failure :
  responses Scenario.disk
    (handleJsonRpcMessage
       (tools_call (VNum 3) (VStr "pack_remote_repository") None))
    Scenario.server
  = [ErrorResponse (VNum 3) (-32603)
       "Error handling tool call: RepoMix integration not initialized"].
Proof. reflexivity. Qed.

(** A missing [name] is answered with the code -32602, for a tool and for
    a resource alike. *)
Example missing_name :
  responses Scenario.disk
    (handleJsonRpcMessage (request (VNum 4) "tools/call" None))
    Scenario.server
  = [ErrorResponse (VNum 4) (-32602) "Missing tool name"]
  ∧ responses Scenario.disk
      (handleJsonRpcMessage (request (VNum 5) "resources/get" None))
      Scenario.server
    = [ErrorResponse (VNum 5) (-32602) "Missing resource name"].
Proof. split; reflexivity. Qed.

(** A [generate_markdown] call on its own: the scan sees the override. *)
Example generate_markdown_alone :
  calls_made
    (run Scenario.disk
         (handleJsonRpcMessage (Scenario.generate 1 "/a" ["*.md"]))
         Scenario.server [])
  = [getDirectoryStructure "/a" ["*.md"];
     generateMarkdownContent "/a" ["a.js"];
     tiktoken_encode "cl100k_base" "## a.js"].
Proof. reflexivity. Qed.

(** ** Running programs *)

Lemma run_bind {A B} (e : env) (p : prog A) (f : A → prog B) w calls :
  run e (bind p f) w calls =
  match run e p w calls with
  | (Returned a, w', calls') => run e (f a) w' calls'
  | (Thrown m, w', calls') => (Thrown m, w', calls')
  end.
Proof.
  revert w calls. induction p as [| | k IH | w' k IH | c k IH | k IH];
    intros w calls; simpl; auto.
Qed.

Lemma run_try_catch {A} (e : env) (p : prog A) (h : string → prog A) w calls :
  run e (try_catch p h) w calls =
  match run e p w calls with
  | (Returned a, w', calls') => (Returned a, w', calls')
  | (Thrown m, w', calls') => run e (h m) w' calls'
  end.
Proof.
  revert w calls. induction p as [| | k IH | w' k IH | c k IH | k IH];
    intros w calls; simpl; auto.
Qed.

Lemma run_try_finally {A} (e : env) (p : prog A) (f : prog unit) w calls :
  run e (try_finally p f) w calls =
  match run e p w calls with
  | (o, w1, calls1) =>
      match run e f w1 calls1 with
      | (Returned _, w2, calls2) => (o, w2, calls2)
      | (Thrown m, w2, calls2) => (Thrown m, w2, calls2)
      end
  end.
Proof.
  revert w calls. induction p as [a | m | k IH | w' k IH | c k IH | k IH];
    intros w calls; simpl; auto.
  - rewrite run_bind. destruct (run e f w calls) as [[[]]]; done.
  - rewrite run_bind. destruct (run e f w calls) as [[[]]]; done.
Qed.

Lemma run_await_async {A} (e : env) (p : prog A) w calls :
  run e (await_async p) w calls = run e p w calls.
Proof.
  unfold await_async. rewrite run_try_catch, run_bind.
  destruct (run e p w calls) as [[[]]]; done.
Qed.

Lemma strict_eq_refl (v : jsval) : strict_eq v v = true.
Proof. unfold strict_eq. by apply bool_decide_eq_true. Qed.

Lemma strict_eq_ne (a b : jsval) : a ≠ b → strict_eq a b = false.
Proof. unfold strict_eq. by apply bool_decide_eq_false. Qed.

(** ** Protocol errors *)

(** C6. A message whose [jsonrpc] is not the string "2.0" is answered by the
    error response -32600 "Invalid Request" under the message's id and by
    nothing else: the program of the message is that one send, whatever its
    method and parameters are, so no success result is written, no method
    handler runs and no collaborator is called. *)
Theorem invalid_request_rejected (message : Message.t) (e : env)
    (w : Server.t) (calls : list call) :
  Message.jsonrpc message ≠ VStr "2.0" →
  handleJsonRpcMessage message
    = sendErrorResponse (Message.id message) (-32600) "Invalid Request"
  ∧ run e (handleJsonRpcMessage message) w calls
    = (Returned tt,
       Server.write (ErrorResponse (Message.id message) (-32600) "Invalid Request") w,
       calls)
  ∧ responses e (handleJsonRpcMessage message) w
    = [ErrorResponse (Message.id message) (-32600) "Invalid Request"]
  ∧ Forall (λ r, is_result r = false)
           (responses e (handleJsonRpcMessage message) w).
Proof.
  intros Hne.
  assert (handleJsonRpcMessage message
          = sendErrorResponse (Message.id message) (-32600) "Invalid Request")
    as ->.
  { unfold handleJsonRpcMessage. by rewrite strict_eq_ne. }
  split; [reflexivity|]. split; [reflexivity|].
  assert (responses e
            (sendErrorResponse (Message.id message) (-32600) "Invalid Request") w
          = [ErrorResponse (Message.id message) (-32600) "Invalid Request"])
    as ->.
  { unfold responses, final_state. simpl. by rewrite drop_app_length. }
  split; [done|]. by repeat constructor.
Qed.

Lemma invalid_request_rejected_witness :
  responses (λ c, Thrown "unreachable")
    (handleJsonRpcMessage
       (Message.mk (VStr "1.0") (VNum 7) (VStr "tools/list") None))
    (Server.mk (Settings.mk [] None ∅) false 1 true [])
  = [ErrorResponse (VNum 7) (-32600) "Invalid Request"].
Proof.
  apply (invalid_request_rejected
           (Message.mk (VStr "1.0") (VNum 7) (VStr "tools/list") None)
           (λ c, Thrown "unreachable")
           (Server.mk (Settings.mk [] None ∅) false 1 true []) []).
  simpl. intros H. discriminate H.
Defined.

(** Settles the comparisons of a [switch] whose outcome is known. *)
Ltac switch :=
  repeat match goal with
    | |- context [strict_eq ?a ?a] => rewrite (strict_eq_refl a)
    | |- context [strict_eq ?a ?b] =>
        rewrite (strict_eq_ne a b) by (assumption || congruence)
    end.

Lemma responses_write {A} (e : env) (p : prog A) w r o calls :
  run e p w [] = (o, Server.write r w, calls) → responses e p w = [r].
Proof.
  intros H. unfold responses, final_state. rewrite H. simpl.
  by rewrite drop_app_length.
Qed.

(** Membership in a list that is written out. *)
Ltac registered :=
  vm_compute; repeat first [apply list_elem_of_here | apply list_elem_of_further].




(** ** The settings resource *)

(** C2, where the code departs from the specification. A [resources/get]
    whose [name] is a scalar other than "settings" is answered by one error
    response under the request's id whose code is -32602, the code of a
    missing parameter, and not the -32601 that an unknown tool and an
    unknown method get. The message is "Unknown resource: <name>" for a
    truthy name and "Missing resource name" otherwise. The response is the
    same whatever the settings object holds, the settings are left as they
    were and no collaborator is called. *)
Theorem unknown_resource_rejected (id : jsval) (params : Params.t) (e : env)
    (w : Server.t) (calls : list call) :
  Params.name params ≠ VStr "settings" →
  ∃ message,
    (∀ s : Settings.t,
       run e (handleJsonRpcMessage (resources_get id params))
           (Server.with_settings s w) calls
       = (Returned tt,
          Server.write (ErrorResponse id (-32602) message)
            (Server.with_settings s w),
          calls))
    ∧ (truthy (Params.name params) = false →
       message = "Missing resource name")
    ∧ (truthy (Params.name params) = true →
       printable (Params.name params) = true →
       message = "Unknown resource: " +:+ template (Params.name params)).
Proof.
  intros Hother.
  destruct (truthy (Params.name params)) eqn:Hname;
    (eexists; split;
     [intros s;
      unfold handleJsonRpcMessage, resources_get, request; simpl; switch;
      simpl; rewrite run_try_catch, run_await_async;
      unfold handleResourcesGet; simpl; rewrite Hname; simpl; switch;
      reflexivity
     | by split]).
Qed.

Lemma unknown_resource_rejected_witness :
  ∃ message,
    (∀ s : Settings.t,
       run (λ c, Thrown "unreachable")
           (handleJsonRpcMessage
              (resources_get (VNum 4) (Params.mk (VStr "logs") None)))
           (Server.with_settings s
              (Server.mk (Settings.mk ["dist"] (Some "sk-1") ∅) false 1 true
                 [])) []
       = (Returned tt,
          Server.write (ErrorResponse (VNum 4) (-32602) message)
            (Server.with_settings s
               (Server.mk (Settings.mk ["dist"] (Some "sk-1") ∅) false 1 true
                  [])),
          []))
    ∧ (truthy (VStr "logs") = false → message = "Missing resource name")
    ∧ (truthy (VStr "logs") = true → printable (VStr "logs") = true →
       message = "Unknown resource: logs").
Proof.
  apply (unknown_resource_rejected (VNum 4) (Params.mk (VStr "logs") None)
           (λ c, Thrown "unreachable")
           (Server.mk (Settings.mk ["dist"] (Some "sk-1") ∅) false 1 true [])
           []).
  simpl. intros H. discriminate H.
Defined.

(** The request for the resource "logs" is not answered with the code
    -32601 of the specification. *)
Lemma unknown_resource_code_counterexample :
  ¬ ∃ message,
      responses (λ c, Thrown "unreachable")
        (handleJsonRpcMessage
           (resources_get (VNum 4) (Params.mk (VStr "logs") None)))
        (Server.mk (Settings.mk ["dist"] (Some "sk-1") ∅) false 1 true [])
      = [ErrorResponse (VNum 4) (-32601) message].
Proof. intros [message H]. vm_compute in H. discriminate H. Qed.

(** C5, as the code has it. When a credential is configured to a non-empty
    value, [resources/get] of "settings" answers with a copy of the settings
    in which the credential is the redaction marker and every other property
    is as configured; the credential of the copy differs from the configured
    one whenever the configured one is not the marker itself; the live
    settings are left as they were. *)
Theorem settings_credential_redacted (id : jsval) (params : Params.t)
    (e : env) (w : Server.t) (calls : list call) (key : string) :
  Params.name params = VStr "settings" →
  Settings.anthropicApiKey (Server.settings w) = Some key →
  key ≠ "" →
  ∃ content,
    run e (handleJsonRpcMessage (resources_get id params)) w calls
    = (Returned tt,
       Server.write (ResultResponse id (ResourceContent content)) w,
       calls)
    ∧ Settings.anthropicApiKey content = Some REDACTED
    ∧ (key ≠ REDACTED → Settings.anthropicApiKey content ≠ Some key)
    ∧ Settings.ignorePatterns content
      = Settings.ignorePatterns (Server.settings w)
    ∧ Settings.other content = Settings.other (Server.settings w)
    ∧ Server.settings
        (Server.write (ResultResponse id (ResourceContent content)) w)
      = Server.settings w
    ∧ ∀ key', key' ≠ "" →
        responses e (handleJsonRpcMessage (resources_get id params))
          (Server.with_settings
             (Settings.with_anthropicApiKey (Some key') (Server.settings w)) w)
        = [ResultResponse id (ResourceContent content)].
Proof.
  intros Hname Hkey Hne.
  assert (∀ k w0 cs, k ≠ "" →
            Settings.anthropicApiKey (Server.settings w0) = Some k →
            run e (handleJsonRpcMessage (resources_get id params)) w0 cs
            = (Returned tt,
               Server.write
                 (ResultResponse id
                    (ResourceContent
                       (Settings.with_anthropicApiKey (Some REDACTED)
                          (Server.settings w0)))) w0,
               cs)) as Hrun.
  { intros k w0 cs Hk Hw0.
    unfold handleJsonRpcMessage, resources_get, request. simpl. switch. simpl.
    rewrite run_try_catch, run_await_async.
    unfold handleResourcesGet. simpl. rewrite Hname. simpl.
    rewrite Hw0. simpl.
    assert (String.eqb k "" = false) as -> by by apply String.eqb_neq.
    reflexivity. }
  exists (Settings.with_anthropicApiKey (Some REDACTED) (Server.settings w)).
  split; [by apply (Hrun key)|]. split; [done|]. split.
  { simpl. intros Hm [= H]. by apply Hm. }
  do 3 (split; [done|]).
  intros key' Hkey'. eapply responses_write.
  by rewrite (Hrun key') by done.
Qed.

Lemma settings_credential_redacted_witness :
  ∃ content,
    run (λ c, Thrown "unreachable")
        (handleJsonRpcMessage
           (resources_get (VStr "a") (Params.mk (VStr "settings") None)))
        (Server.mk (Settings.mk ["dist"] (Some "sk-1") ∅) false 1 true []) []
    = (Returned tt,
       Server.mk (Settings.mk ["dist"] (Some "sk-1") ∅) false 1 true
         [ResultResponse (VStr "a") (ResourceContent content)],
       [])
    ∧ Settings.anthropicApiKey content = Some "[REDACTED]".
Proof.
  destruct (settings_credential_redacted (VStr "a")
              (Params.mk (VStr "settings") None) (λ c, Thrown "unreachable")
              (Server.mk (Settings.mk ["dist"] (Some "sk-1") ∅) false 1 true [])
              [] "sk-1" eq_refl eq_refl)
    as (content & Hrun & Hkey & _).
  - intros H. discriminate H.
  - exists content. split; [exact Hrun | exact Hkey].
Defined.

(** C5, as the specification has it, fails when the configured credential
    is the marker string itself: the credential of the content then equals
    the configured raw value. *)
Lemma redaction_marker_as_credential_counterexample :
  ¬ ∀ content,
      responses (λ c, Thrown "unreachable")
        (handleJsonRpcMessage
           (resources_get (VNum 5) (Params.mk (VStr "settings") None)))
        (Server.mk (Settings.mk [] (Some "[REDACTED]") ∅) false 1 true [])
      = [ResultResponse (VNum 5) (ResourceContent content)] →
      Settings.anthropicApiKey content ≠ Some "[REDACTED]".
Proof. intros H. by eapply H. Qed.

(** ** Token statistics *)

Lemma gpt_4o_encoding : encoding_of "gpt-4o" = Some "cl100k_base".
Proof. reflexivity. Qed.

Lemma run_countOpenAITokens (e : env) (text : string) w calls :
  ∃ n extra,
    run e (countOpenAITokens text "gpt-4o") w calls
    = (Returned n, w, calls ++ extra)
    ∧ Forall (λ c, c = tiktoken_encode "cl100k_base" text) extra.
Proof.
  unfold countOpenAITokens. rewrite run_try_catch, gpt_4o_encoding.
  simpl. destruct (Server.tiktoken w); simpl.
  - destruct (e (tiktoken_encode "cl100k_base" text)) as [ts|m]; simpl;
      eexists _, [_]; (split; [reflexivity|]); by repeat constructor.
  - exists (-1), []. rewrite app_nil_r. by split.
Qed.

Lemma run_countClaudeTokensWithAPI (e : env) (text : string) apiKey w calls :
  ∃ n extra,
    run e (countClaudeTokensWithAPI text apiKey) w calls
    = (Returned n, w, calls ++ extra)
    ∧ Forall (λ c, ∃ key, c = axios_post_tokenize text key) extra.
Proof.
  unfold countClaudeTokensWithAPI. destruct (truthy_str apiKey); simpl.
  - destruct (e (axios_post_tokenize text (default "" apiKey))) as [[ts|]|m];
      simpl; eexists _, [_]; (split; [reflexivity|]); repeat constructor;
      by eexists.
  - eexists _, []. rewrite app_nil_r. by split.
Qed.

(** [Math.ceil] of a quarter is the least integer not below it. *)
Lemma Math_ceil_quarter (n : Z) :
  4 * (Math_ceil (n # 4) - 1) < n ≤ 4 * Math_ceil (n # 4).
Proof.
  unfold Math_ceil, Qceiling, Qfloor. simpl.
  pose proof (Z.div_mod (- n) 4 ltac:(lia)).
  pose proof (Z.mod_pos_bound (- n) 4 ltac:(lia)). lia.
Qed.

(** [calculateStats] never throws and changes nothing; it calls the
    tokenizer with the encoding of "gpt-4o" at most, and the HTTP endpoint
    only when a credential is configured. *)
Lemma run_calculateStats (e : env) (text : string) w calls :
  ∃ openAi claude extra,
    run e (calculateStats text) w calls
    = (Returned (mkStats (text_length text) openAi claude), w, calls ++ extra)
    ∧ Forall (λ c, c = tiktoken_encode "cl100k_base" text
                   ∨ ∃ key, c = axios_post_tokenize text key) extra
    ∧ (truthy_str (Settings.anthropicApiKey (Server.settings w)) = false →
       claude = Math_ceil (text_length text # 4)
       ∧ Forall (λ c, c = tiktoken_encode "cl100k_base" text) extra).
Proof.
  unfold calculateStats, mbind, prog_bind.
  rewrite run_bind, run_try_catch.
  destruct (run_countOpenAITokens e text w calls) as (n & ex1 & -> & Hex1).
  rewrite run_bind, run_try_catch. simpl.
  destruct (truthy_str (Settings.anthropicApiKey (Server.settings w))) eqn:Hkey.
  - rewrite run_await_async.
    destruct (run_countClaudeTokensWithAPI e text
                (Settings.anthropicApiKey (Server.settings w)) w (calls ++ ex1))
      as (c & ex2 & -> & Hex2).
    exists n, c, (ex1 ++ ex2). rewrite app_assoc. split; [done|]. split; [|done].
    apply Forall_app. split.
    + eapply Forall_impl; [exact Hex1|]. by left.
    + eapply Forall_impl; [exact Hex2|]. by right.
  - simpl. exists n, (Math_ceil (text_length text # 4)), ex1.
    split; [done|]. split; [|done].
    eapply Forall_impl; [exact Hex1|]. by left.
Qed.

(** C8. When no credential is configured (the [anthropicApiKey] setting is
    absent or empty), [calculateStats] returns, and the [claudeTokens] of the
    statistics is [Math.ceil(text.length / 4)]: the least integer that is not
    below a quarter of the length of the text. *)
Theorem claude_tokens_without_credential (e : env) (text : string)
    (w : Server.t) (calls : list call) :
  Settings.anthropicApiKey (Server.settings w) = None
  ∨ Settings.anthropicApiKey (Server.settings w) = Some "" →
  ∃ stats calls',
    run e (calculateStats text) w calls = (Returned stats, w, calls')
    ∧ claudeTokens stats = Math_ceil (text_length text # 4)
    ∧ 4 * (claudeTokens stats - 1) < text_length text ≤ 4 * claudeTokens stats.
Proof.
  intros Hkey.
  destruct (run_calculateStats e text w calls)
    as (openAi & claude & extra & Hrun & _ & Hclaude).
  destruct Hclaude as [-> _].
  { by destruct Hkey as [-> | ->]. }
  eexists _, _. split; [exact Hrun|]. simpl. split; [done|].
  apply Math_ceil_quarter.
Qed.

Lemma claude_tokens_without_credential_witness :
  ∃ stats calls',
    run (λ c, Thrown "unreachable") (calculateStats "hello")
        (Server.mk (Settings.mk [] (Some "") ∅) false 1 false []) []
    = (Returned stats,
       Server.mk (Settings.mk [] (Some "") ∅) false 1 false [], calls')
    ∧ claudeTokens stats = 2.
Proof.
  destruct (claude_tokens_without_credential (λ c, Thrown "unreachable")
              "hello" (Server.mk (Settings.mk [] (Some "") ∅) false 1 false [])
              [] (or_intror eq_refl))
    as (stats & calls' & Hrun & Hclaude & _).
  exists stats, calls'. split; [exact Hrun|]. rewrite Hclaude. reflexivity.
Defined.

Lemma run_count_tokens (e : env) (id : jsval) (i : Input.t) w calls :
  ∃ r extra,
    run e (handleJsonRpcMessage (tools_call id (VStr "count_tokens") (Some i)))
        w calls
    = (Returned tt, Server.write r w, calls ++ extra)
    ∧ Forall (λ c, ∀ enc t, c = tiktoken_encode enc t → enc = "cl100k_base")
             extra
    ∧ ∀ text, Input.text i = Some text → text ≠ "" →
        ∃ stats,
          r = ResultResponse id (ToolCallResult (CountTokensResult true stats))
          ∧ characterCount stats = text_length text.
Proof.
  unfold handleJsonRpcMessage, tools_call, request. simpl. switch. simpl.
  rewrite run_try_catch, run_await_async.
  unfold handleToolsCall. simpl. switch. simpl.
  rewrite run_try_catch. unfold mbind, prog_bind.
  rewrite run_bind, run_await_async.
  unfold handleCountTokens, mbind, prog_bind.
  destruct (truthy_str (Input.text i)) eqn:Htruthy; cbn [negb].
  - rewrite run_bind, run_await_async.
    destruct (run_calculateStats e (default "" (Input.text i)) w calls)
      as (openAi & claude & extra & -> & Hextra & _).
    simpl. eexists _, extra. split; [reflexivity|]. split.
    + eapply Forall_impl; [exact Hextra|]. simpl.
      intros c [-> | [key ->]] enc t [=]; done.
    + intros text Htext _. rewrite Htext. simpl. by eexists.
  - eexists _, []. rewrite app_nil_r. split; [reflexivity|]. split; [done|].
    intros text Htext Hne. rewrite Htext in Htruthy. simpl in Htruthy.
    apply negb_false_iff, String.eqb_eq in Htruthy. done.
Qed.

(** C9. A [count_tokens] call with a non-empty [text] is answered by one
    success result under the request's id whose statistics carry, as
    [characterCount], the length of the text. *)
Theorem count_tokens_character_count (e : env) (id : jsval) (i : Input.t)
    (text : string) (w : Server.t) (calls : list call) :
  Input.text i = Some text →
  text ≠ "" →
  ∃ stats calls',
    run e (handleJsonRpcMessage (tools_call id (VStr "count_tokens") (Some i)))
        w calls
    = (Returned tt,
       Server.write
         (ResultResponse id (ToolCallResult (CountTokensResult true stats))) w,
       calls')
    ∧ characterCount stats = Z.of_nat (String.length text).
Proof.
  intros Htext Hne.
  destruct (run_count_tokens e id i w calls) as (r & extra & Hrun & _ & Hr).
  destruct (Hr text Htext Hne) as (stats & -> & Hcount).
  by exists stats, (calls ++ extra).
Qed.

(** The scenario of the specification: [{"jsonrpc":"2.0","id":2,
    "method":"tools/call","params":{"name":"count_tokens",
    "input":{"text":"hello"}}}] is answered with [characterCount] 5. *)
Lemma count_tokens_character_count_witness :
  ∃ stats calls',
    run (λ c, Thrown "unreachable")
        (handleJsonRpcMessage
           (tools_call (VNum 2) (VStr "count_tokens")
              (Some (Input.mk None None None (Some "hello") None None None None))))
        (Server.mk (Settings.mk [] (Some "") ∅) false 1 false []) []
    = (Returned tt,
       Server.mk (Settings.mk [] (Some "") ∅) false 1 false
         [ResultResponse (VNum 2)
            (ToolCallResult (CountTokensResult true stats))],
       calls')
    ∧ characterCount stats = 5.
Proof.
  destruct (count_tokens_character_count (λ c, Thrown "unreachable") (VNum 2)
              (Input.mk None None None (Some "hello") None None None None)
              "hello" (Server.mk (Settings.mk [] (Some "") ∅) false 1 false [])
              [] eq_refl)
    as (stats & calls' & Hrun & Hcount).
  - intros H. discriminate H.
  - exists stats, calls'. split; [exact Hrun | exact Hcount].
Defined.

(** C10. The answer to a [count_tokens] call does not depend on [model]:
    two requests that differ in [model] only run the same program, so under
    the same collaborators and from the same state they write the same
    responses and make the same calls; and every call of the tokenizer they
    make uses the encoding of "gpt-4o". *)
Theorem count_tokens_ignores_model (id : jsval) (i : Input.t)
    (model1 model2 : option string) :
  handleJsonRpcMessage
    (tools_call id (VStr "count_tokens") (Some (Input.with_model model1 i)))
  = handleJsonRpcMessage
      (tools_call id (VStr "count_tokens") (Some (Input.with_model model2 i)))
  ∧ (∀ (e : env) (w : Server.t) (calls : list call),
       run e (handleJsonRpcMessage
                (tools_call id (VStr "count_tokens")
                   (Some (Input.with_model model1 i)))) w calls
       = run e (handleJsonRpcMessage
                  (tools_call id (VStr "count_tokens")
                     (Some (Input.with_model model2 i)))) w calls)
  ∧ (∀ (e : env) (w : Server.t) (encoding text : string),
       tiktoken_encode encoding text
         ∈ calls_made
             (run e (handleJsonRpcMessage
                       (tools_call id (VStr "count_tokens")
                          (Some (Input.with_model model1 i)))) w []) →
       encoding = "cl100k_base"
       ∧ modelToEncoding !! "gpt-4o" = Some encoding).
Proof.
  assert (handleJsonRpcMessage
            (tools_call id (VStr "count_tokens") (Some (Input.with_model model1 i)))
          = handleJsonRpcMessage
              (tools_call id (VStr "count_tokens")
                 (Some (Input.with_model model2 i)))) as Hsame.
  { destruct i. reflexivity. }
  split; [exact Hsame|]. split.
  - intros e w calls. by rewrite Hsame.
  - intros e w encoding text Hin.
    destruct (run_count_tokens e id (Input.with_model model1 i) w [])
      as (r & extra & Hrun & Hextra & _).
    rewrite Hrun in Hin. unfold calls_made in Hin. simpl in Hin.
    rewrite Forall_forall in Hextra.
    rewrite (Hextra _ Hin encoding text eq_refl). by split.
Qed.

(** ** What a program may do *)

Section Obeys.
Context (puts : Prop) (ok : call → Prop).

Lemma obeys_bind {A B} (p : prog A) (f : A → prog B) :
  obeys puts ok p → (∀ a, obeys puts ok (f a)) → obeys puts ok (bind p f).
Proof.
  intros Hp Hf. induction p as [| | k IH | w' k IH | c k IH | k IH];
    simpl in *; auto.
  - split; [apply Hp | apply IH, Hp].
  - split; [apply Hp | intros o; apply IH, Hp].
Qed.

Lemma obeys_try_catch {A} (p : prog A) (h : string → prog A) :
  obeys puts ok p → (∀ m, obeys puts ok (h m)) →
  obeys puts ok (try_catch p h).
Proof.
  intros Hp Hh. induction p as [| | k IH | w' k IH | c k IH | k IH];
    simpl in *; auto.
  - split; [apply Hp | apply IH, Hp].
  - split; [apply Hp | intros o; apply IH, Hp].
Qed.

Lemma obeys_try_finally {A} (p : prog A) (f : prog unit) :
  obeys puts ok p → obeys puts ok f → obeys puts ok (try_finally p f).
Proof.
  intros Hp Hf. induction p as [| | k IH | w' k IH | c k IH | k IH];
    simpl in *; auto.
  - by apply obeys_bind.
  - by apply obeys_bind.
  - split; [apply Hp | apply IH, Hp].
  - split; [apply Hp | intros o; apply IH, Hp].
Qed.

Lemma obeys_await (c : call) : ok c → obeys puts ok (await c).
Proof. intros Hc. split; [done|]. by intros []. Qed.

Lemma obeys_await_async {A} (p : prog A) :
  obeys puts ok p → obeys puts ok (await_async p).
Proof.
  intros Hp. unfold await_async. apply obeys_try_catch; [|done].
  by apply obeys_bind.
Qed.

Lemma obeys_calculateStats (text : string) :
  (∀ encoding, ok (tiktoken_encode encoding text)) →
  (∀ key, ok (axios_post_tokenize text key)) →
  obeys puts ok (calculateStats text).
Proof.
  intros Htok Hapi. unfold calculateStats, mbind, prog_bind.
  apply obeys_bind.
  - apply obeys_try_catch; [|done]. unfold countOpenAITokens.
    apply obeys_try_catch; [|done]. intros w. simpl.
    destruct (Server.tiktoken w); simpl; [|done].
    split; [apply Htok|]. by intros [].
  - intros openAi. apply obeys_bind; [|done].
    apply obeys_try_catch; [|done]. intros w. simpl.
    destruct (truthy_str (Settings.anthropicApiKey (Server.settings w)));
      [|done].
    apply obeys_await_async. unfold countClaudeTokensWithAPI.
    destruct (truthy_str (Settings.anthropicApiKey (Server.settings w)));
      [|done].
    simpl. split; [apply Hapi|]. by intros [[]|].
Qed.

End Obeys.

Lemma obeys_get (puts : Prop) (ok : call → Prop) : obeys puts ok get.
Proof. by intros w. Qed.

(** Walks through a program, leaving the conditions on its calls. *)
Ltac obey :=
  repeat match goal with
    | |- obeys _ _ (Ret _) => exact I
    | |- obeys _ _ (Throw _) => exact I
    | |- obeys _ _ get => apply obeys_get
    | |- obeys _ _ (bind _ _) => apply obeys_bind; [|intros ?]
    | |- obeys _ _ (try_catch _ _) => apply obeys_try_catch; [|intros ?]
    | |- obeys _ _ (try_finally _ _) => apply obeys_try_finally
    | |- obeys _ _ (await_async _) => apply obeys_await_async
    | |- obeys _ _ (await _) => apply obeys_await
    | |- obeys _ _ (calculateStats _) => apply obeys_calculateStats; intros ?
    | |- obeys _ _ (match ?x with _ => _ end) => destruct x
    end.

(** A program that never writes the state leaves it as it was. *)
Lemma run_readonly {A} (e : env) (ok : call → Prop) (p : prog A) w calls :
  obeys False ok p → final_state (run e p w calls) = w.
Proof.
  revert w calls. induction p as [| | k IH | w' k IH | c k IH | k IH];
    intros w calls Hp; simpl in *; auto.
  - by destruct Hp.
  - apply IH, Hp.
Qed.

(** ** Request-scoped overrides *)

Lemma generate_markdown_restores_state (e : env) (i : Input.t)
    (override : list string) (w : Server.t) (calls : list call) :
  Input.ignorePatterns i = Some override →
  final_state (run e (handleGenerateMarkdown (Some i)) w calls) = w.
Proof.
  intros Hoverride. unfold handleGenerateMarkdown.
  destruct (truthy_str (Input.folderPath i)); cbn [negb]; [|done].
  rewrite Hoverride. unfold mbind, prog_bind.
  match goal with |- context [try_finally ?b _] => set (body := b) end.
  assert (obeys False (λ _, True) body) as Hbody.
  { unfold body. obey; done. }
  clearbody body. simpl. rewrite run_try_finally.
  match goal with
  | |- context [run e body ?w1 calls] =>
      pose proof (run_readonly e _ body w1 calls Hbody) as Hsame;
      destruct (run e body w1 calls) as [[o w2] calls2]
  end.
  unfold final_state in Hsame. simpl in Hsame. rewrite Hsame.
  destruct w as [[patterns key other] repoMix next tok out].
  by destruct o.
Qed.

(** C4. A [generate_markdown] call that supplies an [ignorePatterns]
    override and runs with no other request in flight leaves the
    [ignorePatterns] of the shared settings, and the settings as a whole, as
    they were when it started, however the collaborators answer and whether
    the handler returns or throws. *)
Theorem generate_markdown_restores_ignorePatterns (e : env) (i : Input.t)
    (override : list string) (w : Server.t) (calls : list call) :
  Input.ignorePatterns i = Some override →
  Settings.ignorePatterns
    (Server.settings
       (final_state (run e (handleGenerateMarkdown (Some i)) w calls)))
  = Settings.ignorePatterns (Server.settings w)
  ∧ final_state (run e (handleGenerateMarkdown (Some i)) w calls) = w.
Proof.
  intros Hoverride.
  by rewrite (generate_markdown_restores_state e i override w calls Hoverride).
Qed.


Lemma generate_markdown_restores_ignorePatterns_witness :
  Settings.ignorePatterns
    (Server.settings
       (final_state
          (run (λ c, Thrown "EACCES")
               (handleGenerateMarkdown
                  (Some (Input.mk (Some "/repo") None (Some ["*.md"]) None None
                                  None None None)))
               (Server.mk (Settings.mk ["node_modules"] None ∅) false 1 true [])
               [])))
  = ["node_modules"].
Proof.
  apply (generate_markdown_restores_ignorePatterns (λ c, Thrown "EACCES")
           (Input.mk (Some "/repo") None (Some ["*.md"]) None None None None None)
           ["*.md"]
           (Server.mk (Settings.mk ["node_modules"] None ∅) false 1 true [])
           [] eq_refl).
Defined.

(** ** Overrides of requests in flight together *)


Lemma quiet_scans_with (patterns : list string) (c : call) :
  ¬ is_scan c → scans_with patterns c.
Proof. by destruct c. Qed.

Lemma quiet_guarded {A} (patterns : list string) (p : prog A) w :
  quiet p → guarded patterns p w.
Proof.
  revert w. induction p as [| | k IH | w' k IH | c k IH | k IH];
    intros w Hp; simpl in *; auto.
  - apply IH, Hp.
  - apply IH, Hp.
  - destruct Hp as [Hc Hk]. split; [by apply quiet_scans_with|].
    intros o. destruct (is_sync c); [apply IH|]; apply Hk.
Qed.

Section Guarded.
Context (patterns : list string).

Lemma guarded_bind {A B} (p : prog A) (f : A → prog B) w :
  guarded patterns p w → (∀ a, quiet (f a)) → guarded patterns (bind p f) w.
Proof.
  intros Hp Hf. revert w Hp.
  induction p as [| | k IH | w' k IH | c k IH | k IH]; intros w Hp;
    simpl in *; auto.
  - by apply quiet_guarded.
  - destruct Hp as [Hc Hk]. split; [done|]. intros o. specialize (Hk o).
    destruct (is_sync c); [by apply IH | by apply obeys_bind].
  - by apply obeys_bind.
Qed.

Lemma guarded_try_catch {A} (p : prog A) (h : string → prog A) w :
  guarded patterns p w → (∀ m, quiet (h m)) →
  guarded patterns (try_catch p h) w.
Proof.
  intros Hp Hh. revert w Hp.
  induction p as [| | k IH | w' k IH | c k IH | k IH]; intros w Hp;
    simpl in *; auto.
  - by apply quiet_guarded.
  - destruct Hp as [Hc Hk]. split; [done|]. intros o. specialize (Hk o).
    destruct (is_sync c); [by apply IH | by apply obeys_try_catch].
  - by apply obeys_try_catch.
Qed.

Lemma guarded_try_finally {A} (p : prog A) (f : prog unit) w :
  guarded patterns p w → quiet f → guarded patterns (try_finally p f) w.
Proof.
  intros Hp Hf. revert w Hp.
  induction p as [| | k IH | w' k IH | c k IH | k IH]; intros w Hp;
    simpl in *; auto.
  - apply quiet_guarded. by apply obeys_bind.
  - apply quiet_guarded. by apply obeys_bind.
  - destruct Hp as [Hc Hk]. split; [done|]. intros o. specialize (Hk o).
    destruct (is_sync c); [by apply IH | by apply obeys_try_finally].
  - by apply obeys_try_finally.
Qed.

Lemma guarded_await_async {A} (p : prog A) w :
  guarded patterns p w → guarded patterns (await_async p) w.
Proof.
  intros Hp. unfold await_async. apply guarded_try_catch; [|done].
  by apply guarded_bind.
Qed.

(** One turn of a guarded program. *)
Lemma run_turn_guarded {A} (tokenizer : env) (p : prog A) w calls :
  guarded patterns p w → Forall (scans_with patterns) calls →
  quiet_paused (run_turn tokenizer p w calls).1.1
  ∧ Forall (scans_with patterns) (run_turn tokenizer p w calls).2.
Proof.
  revert w calls. induction p as [| | k IH | w' k IH | c k IH | k IH];
    intros w calls Hp Hcalls; simpl in *; auto.
  destruct Hp as [Hc Hk].
  assert (Forall (scans_with patterns) (calls ++ [c])).
  { apply Forall_app. split; [done|]. by repeat constructor. }
  destruct (is_sync c); simpl.
  - apply IH; [apply Hk | done].
  - by split.
Qed.
End Guarded.

Lemma strict_eq_true (a b : jsval) : strict_eq a b = true → a = b.
Proof. unfold strict_eq. apply bool_decide_eq_true. Qed.

(** The request that asks for an override scans with it, in the turn that
    installs it. *)
Lemma handleGenerateMarkdown_guarded (i : Input.t) (patterns : list string) w :
  Input.ignorePatterns i = Some patterns →
  guarded patterns (handleGenerateMarkdown (Some i)) w.
Proof.
  intros Hoverride. unfold handleGenerateMarkdown.
  destruct (truthy_str (Input.folderPath i)); cbn [negb]; [|done].
  rewrite Hoverride. unfold mbind, prog_bind. cbn [bind get guarded].
  apply guarded_try_finally.
  - apply guarded_bind.
    + destruct (Input.selectedPaths i); [done|].
      cbn [bind get guarded await]. split; [done|].
      intros o. cbn [is_sync]. unfold quiet. obey.
    + intros paths. unfold quiet. obey; by intros [].
  - unfold quiet, modify. simpl. done.
Qed.

Lemma handleJsonRpcMessage_guarded (m : Message.t) (patterns : list string) w :
  override_of m = Some patterns →
  guarded patterns (handleJsonRpcMessage m) w.
Proof.
  unfold override_of. intros Hm.
  destruct (strict_eq (Message.jsonrpc m) (VStr "2.0")) eqn:Hrpc; [|done].
  destruct (strict_eq (Message.method m) (VStr "tools/call")) eqn:Hmethod;
    [|done].
  destruct (Message.params m) as [params|] eqn:Hparams; [|done].
  destruct (strict_eq (Params.name params) (VStr "generate_markdown")) eqn:Hname;
    [|done].
  destruct (Params.input params) as [i|] eqn:Hinput; [|done].
  cbn [andb] in Hm.
  apply strict_eq_true in Hmethod, Hname.
  unfold handleJsonRpcMessage. rewrite Hrpc, Hmethod. cbn [negb truthy].
  simpl String.eqb. cbn [negb]. switch.
  apply guarded_try_catch; [|by intros ?; unfold quiet, sendErrorResponse, sendMessage, modify; simpl].
  apply guarded_await_async. unfold handleToolsCall.
  rewrite Hparams. change (default Params.empty (Some params)) with params.
  rewrite Hname, Hinput.
  cbn [negb truthy]. simpl String.eqb. cbn [negb]. switch.
  apply guarded_try_catch; [|by intros ?; unfold quiet, sendErrorResponse, sendMessage, modify; simpl].
  unfold mbind, prog_bind. apply guarded_bind.
  - apply guarded_await_async. by apply handleGenerateMarkdown_guarded.
  - intros r. unfold quiet, sendResult, sendMessage, modify. by simpl.
Qed.


Lemma loop_inv_initial (w : Server.t) (messages : list Message.t) :
  loop_inv messages (initial w messages).
Proof.
  intros j m patterns Hj _. unfold initial. simpl.
  rewrite list_lookup_fmap, Hj. simpl. by split.
Qed.

Lemma loop_inv_advance (tokenizer : env) (messages : list Message.t)
    (i : nat) (p : prog unit) (l : Loop.t) :
  loop_inv messages l →
  (i < length (Loop.tasks l))%nat →
  (∀ m patterns, messages !! i = Some m → override_of m = Some patterns →
                 guarded patterns p (Loop.world l)) →
  loop_inv messages (advance tokenizer i p l).
Proof.
  intros Hinv Hi Hp j m patterns Hj Hm. unfold advance.
  destruct (Hinv j m patterns Hj Hm) as [Htask Hlog].
  destruct (decide (j = i)) as [-> | Hne].
  - pose proof (run_turn_guarded patterns tokenizer p (Loop.world l) []
                  (Hp m patterns Hj Hm) ltac:(constructor)) as [Hquiet Hcalls].
    destruct (run_turn tokenizer p (Loop.world l) []) as [[p' w'] calls].
    simpl in *. rewrite list_lookup_insert_eq by done. split; [done|].
    apply Forall_app. split; [done|]. apply Forall_fmap.
    eapply Forall_impl; [exact Hcalls|]. by intros c Hc _.
  - destruct (run_turn tokenizer p (Loop.world l) []) as [[p' w'] calls].
    simpl. rewrite list_lookup_insert_ne by done. split; [done|].
    apply Forall_app. split; [done|]. apply Forall_fmap, Forall_forall.
    intros c _ Heq. simpl in Heq. congruence.
Qed.

Lemma loop_inv_turn (tokenizer : env) (messages : list Message.t)
    (a : action) (l l' : Loop.t) :
  loop_inv messages l → turn tokenizer a l = Some l' → loop_inv messages l'.
Proof.
  intros Hinv Hturn. destruct a as [i | i answer]; simpl in Hturn.
  - destruct (Loop.tasks l !! i) as [[m0 | p] |] eqn:Htask; [|done..].
    injection Hturn as <-. apply loop_inv_advance; [done | |].
    + by eapply lookup_lt_Some.
    + intros m patterns Hi Hm. destruct (Hinv i m patterns Hi Hm) as [Hwait _].
      rewrite Htask in Hwait. subst m0.
      by apply handleJsonRpcMessage_guarded.
  - destruct (Loop.tasks l !! i) as [[m0 | [o | c k | k]] |] eqn:Htask;
      [done.. | | | done]; injection Hturn as <-;
      (apply loop_inv_advance; [done | by eapply lookup_lt_Some |]);
      intros m patterns Hi Hm; destruct (Hinv i m patterns Hi Hm) as [Hrun _];
      rewrite Htask in Hrun; apply quiet_guarded, Hrun.
Qed.

Lemma loop_inv_turns (tokenizer : env) (messages : list Message.t)
    (schedule : list action) (l l' : Loop.t) :
  loop_inv messages l → turns tokenizer schedule l = Some l' →
  loop_inv messages l'.
Proof.
  revert l. induction schedule as [| a schedule IH]; intros l Hinv Hturns;
    simpl in Hturns.
  - by injection Hturns as <-.
  - destruct (turn tokenizer a l) as [l1|] eqn:Hturn; [|done].
    eapply IH; [|done]. by eapply loop_inv_turn.
Qed.

Lemma scans_of_spec (j : nat) (patterns : list string)
    (log : list (nat * call)) :
  Forall (λ entry, entry.1 = j → scans_with patterns entry.2) log →
  Forall (λ used, used = patterns) (scans_of j log).
Proof.
  unfold scans_of. induction 1 as [| [i c] log Hc Hlog IH]; simpl; [done|].
  destruct c; try done. case_bool_decide; [|done].
  constructor; [by apply Hc | done].
Qed.

Lemma scans_of_app (j : nat) (log log' : list (nat * call)) :
  scans_of j (log ++ log') = scans_of j log ++ scans_of j log'.
Proof. apply omap_app. Qed.

Lemma scans_of_own (j : nat) (calls : list call) :
  scans_of j (pair j <$> calls) = scan_patterns calls.
Proof.
  unfold scans_of, scan_patterns.
  induction calls as [| c calls IH]; [done|]. cbn [fmap list_fmap omap list_omap].
  rewrite IH. destruct c; try done. by rewrite bool_decide_eq_true_2.
Qed.

Lemma scans_of_other (i j : nat) (calls : list call) :
  i ≠ j → scans_of j (pair i <$> calls) = [].
Proof.
  intros Hne. unfold scans_of.
  induction calls as [| c calls IH]; [done|]. cbn [fmap list_fmap omap list_omap].
  rewrite IH. destruct c; try done. by rewrite bool_decide_eq_false_2.
Qed.

Lemma scan_patterns_app (calls calls' : list call) :
  scan_patterns (calls ++ calls')
  = scan_patterns calls ++ scan_patterns calls'.
Proof. apply omap_app. Qed.

(** A turn of a program that starts no scan adds no scan. *)
Lemma run_turn_quiet {A} (tokenizer : env) (p : prog A) w calls :
  quiet p →
  quiet_paused (run_turn tokenizer p w calls).1.1
  ∧ scan_patterns (run_turn tokenizer p w calls).2 = scan_patterns calls.
Proof.
  unfold quiet.
  revert w calls. induction p as [| | k IH | w' k IH | c k IH | k IH];
    intros w calls Hp; simpl in *; auto.
  - apply IH, Hp.
  - destruct Hp as [Hc Hk].
    assert (scan_patterns (calls ++ [c]) = scan_patterns calls) as Hsame.
    { rewrite scan_patterns_app. destruct c; simpl in *;
        by rewrite ?app_nil_r. }
    destruct (is_sync c); simpl.
    + rewrite <- Hsame. apply IH, Hk.
    + by split.
Qed.

(** The first turn of a request that asks for an override: the override is
    installed and the scan, if the request makes one, is started with it
    before the turn ends. *)
Lemma run_turn_override (tokenizer : env) (m : Message.t)
    (patterns : list string) (w : Server.t) :
  override_of m = Some patterns →
  scan_patterns (run_turn tokenizer (handleJsonRpcMessage m) w []).2
  = (if scans_folder m then [patterns] else []).
Proof.
  unfold override_of, scans_folder. intros Hm.
  destruct (strict_eq (Message.jsonrpc m) (VStr "2.0")) eqn:Hrpc; [|done].
  destruct (strict_eq (Message.method m) (VStr "tools/call")) eqn:Hmethod;
    [|done].
  destruct (Message.params m) as [params|] eqn:Hparams; [|done].
  destruct (strict_eq (Params.name params) (VStr "generate_markdown")) eqn:Hname;
    [|done].
  destruct (Params.input params) as [i|] eqn:Hinput; [|done].
  cbn [andb] in Hm.
  apply strict_eq_true in Hmethod, Hname.
  unfold handleJsonRpcMessage. rewrite Hrpc, Hmethod. cbn [negb truthy].
  simpl String.eqb. cbn [negb]. switch.
  unfold await_async at 1. unfold handleToolsCall.
  rewrite Hparams. change (default Params.empty (Some params)) with params.
  rewrite Hname, Hinput.
  cbn [negb truthy]. simpl String.eqb. cbn [negb]. switch.
  unfold await_async, handleGenerateMarkdown, mbind, prog_bind.
  rewrite Hm.
  destruct (truthy_str (Input.folderPath i)); cbn [negb andb]; [|done].
  destruct (Input.selectedPaths i) as [paths|]; reflexivity.
Qed.

Lemma loop_scans_initial (w : Server.t) (messages : list Message.t) :
  loop_scans messages (initial w messages).
Proof.
  intros j m patterns Hj _. unfold initial. simpl.
  rewrite list_lookup_fmap, Hj. simpl. by split.
Qed.

Lemma loop_scans_advance (tokenizer : env) (messages : list Message.t)
    (i : nat) (p : prog unit) (l : Loop.t) :
  loop_scans messages l →
  (i < length (Loop.tasks l))%nat →
  (∀ m patterns,
     messages !! i = Some m → override_of m = Some patterns →
     quiet_paused (run_turn tokenizer p (Loop.world l) []).1.1
     ∧ scans_of i (Loop.log l)
       ++ scan_patterns (run_turn tokenizer p (Loop.world l) []).2
       = (if scans_folder m then [patterns] else [])) →
  loop_scans messages (advance tokenizer i p l).
Proof.
  intros Hinv Hi Hp j m patterns Hj Hm. unfold advance.
  pose proof (Hinv j m patterns Hj Hm) as Htask.
  destruct (decide (j = i)) as [-> | Hne].
  - destruct (Hp m patterns Hj Hm) as [Hquiet Hscans].
    destruct (run_turn tokenizer p (Loop.world l) []) as [[p' w'] calls].
    simpl in *. rewrite list_lookup_insert_eq by done.
    by rewrite scans_of_app, scans_of_own.
  - destruct (run_turn tokenizer p (Loop.world l) []) as [[p' w'] calls].
    simpl. rewrite list_lookup_insert_ne by done.
    by rewrite scans_of_app, scans_of_other, app_nil_r.
Qed.

Lemma loop_scans_turn (tokenizer : env) (messages : list Message.t)
    (a : action) (l l' : Loop.t) :
  loop_scans messages l → turn tokenizer a l = Some l' →
  loop_scans messages l'.
Proof.
  intros Hinv Hturn. destruct a as [i | i answer]; simpl in Hturn.
  - destruct (Loop.tasks l !! i) as [[m0 | p] |] eqn:Htask; [|done..].
    injection Hturn as <-. apply loop_scans_advance; [done | |].
    + by eapply lookup_lt_Some.
    + intros m patterns Hi Hm. pose proof (Hinv i m patterns Hi Hm) as Hwait.
      rewrite Htask in Hwait. destruct Hwait as [-> ->]. split.
      * apply (run_turn_guarded patterns); [|constructor].
        by apply handleJsonRpcMessage_guarded.
      * by apply run_turn_override.
  - destruct (Loop.tasks l !! i) as [[m0 | [o | c k | k]] |] eqn:Htask;
      [done.. | | | done]; injection Hturn as <-;
      (apply loop_scans_advance; [done | by eapply lookup_lt_Some |]);
      intros m patterns Hi Hm; pose proof (Hinv i m patterns Hi Hm) as Hrun;
      rewrite Htask in Hrun; destruct Hrun as [Hquiet ->];
      match goal with
      | |- context [run_turn tokenizer ?p ?w []] =>
          destruct (run_turn_quiet tokenizer p w []) as [Hq ->];
          [apply Hquiet | by rewrite app_nil_r]
      end.
Qed.

Lemma loop_scans_turns (tokenizer : env) (messages : list Message.t)
    (schedule : list action) (l l' : Loop.t) :
  loop_scans messages l → turns tokenizer schedule l = Some l' →
  loop_scans messages l'.
Proof.
  revert l. induction schedule as [| a schedule IH]; intros l Hinv Hturns;
    simpl in Hturns.
  - by injection Hturns as <-.
  - destruct (turn tokenizer a l) as [l1|] eqn:Hturn; [|done].
    eapply IH; [|done]. by eapply loop_scans_turn.
Qed.

(** C3. However the event loop interleaves the requests it has read, and
    however the collaborators answer, every directory scan started for a
    [generate_markdown] request that supplies an [ignorePatterns] override is
    started with the override of that very request, never with the
    patterns of another request and never with restored settings. And the
    scan is started: as soon as such a request has had its first turn, and
    from then on, the scans it has started are exactly one scan with its
    own override when it names a folder and selects no paths, and none
    otherwise; while it waits it has started none. *)
Theorem overrides_do_not_cross (tokenizer : env) (w : Server.t)
    (messages : list Message.t) (schedule : list action) (l : Loop.t)
    (j : nat) (m : Message.t) (patterns : list string) :
  turns tokenizer schedule (initial w messages) = Some l →
  messages !! j = Some m →
  override_of m = Some patterns →
  Forall (λ used, used = patterns) (scans_of j (Loop.log l))
  ∧ scans_of j (Loop.log l)
    = match Loop.tasks l !! j with
      | Some (Running _) => if scans_folder m then [patterns] else []
      | _ => []
      end.
Proof.
  intros Hturns Hj Hm. split.
  - apply scans_of_spec.
    by apply (loop_inv_turns tokenizer messages schedule _ l
                (loop_inv_initial w messages) Hturns j m patterns Hj Hm).
  - pose proof (loop_scans_turns tokenizer messages schedule _ l
                  (loop_scans_initial w messages) Hturns j m patterns Hj Hm)
      as Hscans.
    destruct (Loop.tasks l !! j) as [[m' | p] |]; [|by destruct Hscans|done].
    by destruct Hscans.
Qed.

(** Both requests of the scenario are in flight together, and the second,
    started after the first has installed its override, still scans with
    its own; so does a request whose scan has not been answered yet. *)
Lemma overrides_do_not_cross_witness :
  ∃ l,
    turns Scenario.disk Scenario.overlapping
          (initial Scenario.server Scenario.requests) = Some l
    ∧ Forall (λ used, used = ["*.log"]) (scans_of 1 (Loop.log l))
    ∧ scans_of 1 (Loop.log l) = [["*.log"]].
Proof.
  eexists. split; [reflexivity|].
  exact (overrides_do_not_cross Scenario.disk Scenario.server
           Scenario.requests Scenario.overlapping _ 1
           (Scenario.generate 2 "/b" ["*.log"]) ["*.log"]
           eq_refl eq_refl eq_refl).
Defined.

(** The scans of the scenario, and the hazard of the shared settings: each
    scan uses the override of its own request, yet once both requests have
    been answered the settings hold the override of the first request, not
    the patterns they held before. *)
Lemma restore_can_clobber :
  ∃ l,
    turns Scenario.disk Scenario.overlapping
          (initial Scenario.server Scenario.requests) = Some l
    ∧ scans_of 0 (Loop.log l) = [["*.md"]]
    ∧ scans_of 1 (Loop.log l) = [["*.log"]]
    ∧ Loop.tasks l = [Running (Settled (Returned tt));
                      Running (Settled (Returned tt))]
    ∧ response_id <$> Server.stdout (Loop.world l) = [VNum 1; VNum 2]
    ∧ Settings.ignorePatterns (Server.settings (Loop.world l)) = ["*.md"].
Proof. eexists. split; [reflexivity|]. by vm_compute. Qed.

(** ** Correlation of responses *)

(** The tool handlers leave the state as they found it when they run with
    no other request in flight. *)
Lemma handleGenerateMarkdown_leaves_state (e : env) input w calls :
  final_state (run e (handleGenerateMarkdown input) w calls) = w.
Proof.
  destruct input as [i|]; [|done].
  destruct (Input.ignorePatterns i) as [override|] eqn:Hoverride.
  - by apply (generate_markdown_restores_state e i override).
  - apply (run_readonly e (λ _, True)). unfold handleGenerateMarkdown.
    rewrite Hoverride. unfold mbind, prog_bind. obey; done.
Qed.

Lemma tool_handlers_leave_state (e : env) input w calls :
  final_state (run e (handleCountTokens input) w calls) = w
  ∧ final_state (run e (handleGetDirectoryStructure input) w calls) = w
  ∧ final_state (run e (handlePackRemoteRepository input) w calls) = w
  ∧ final_state (run e (handleProcessWithSecurity input) w calls) = w.
Proof.
  repeat split; apply (run_readonly e (λ _, True));
    unfold handleCountTokens, handleGetDirectoryStructure,
      handlePackRemoteRepository, handleProcessWithSecurity, mbind, prog_bind;
    obey; done.
Qed.

(** [handleToolsCall] answers once for a handler that leaves the state. *)
Lemma run_respond (e : env) (id : jsval) (handler : prog tool_result)
    (h : string → prog unit) w :
  final_state (run e handler w []) = w →
  (∀ m w' calls, ∃ r, run e (h m) w' calls = (Returned tt, Server.write r w', calls)
                      ∧ response_id r = id) →
  ∃ r calls,
    run e (try_catch
             (bind (await_async handler)
                   (λ r, sendResult id (ToolCallResult r))) h) w []
    = (Returned tt, Server.write r w, calls)
    ∧ response_id r = id.
Proof.
  intros Hstate Hh. rewrite run_try_catch, run_bind, run_await_async.
  unfold final_state in Hstate.
  destruct (run e handler w []) as [[[r | m] w'] calls]; simpl in Hstate;
    subst w'.
  - by eexists _, _.
  - destruct (Hh m w calls) as (r & -> & Hid). by eexists _, _.
Qed.

Lemma run_handleToolsCall (e : env) (message : Message.t) w :
  ∃ r calls,
    run e (handleToolsCall message) w [] = (Returned tt, Server.write r w, calls)
    ∧ response_id r = Message.id message.
Proof.
  unfold handleToolsCall.
  destruct (truthy (Params.name (default Params.empty (Message.params message))));
    cbn [negb]; [|by eexists _, _].
  pose proof (tool_handlers_leave_state e
    (Params.input (default Params.empty (Message.params message))) w [])
    as (Hcount & Hdir & Hpack & Hsec).
  repeat match goal with
    | |- context [if strict_eq ?a ?b then _ else _] =>
        destruct (strict_eq a b);
        [apply run_respond;
         [done || apply handleGenerateMarkdown_leaves_state
         | by intros; eexists]|]
    end.
  by eexists _, _.
Qed.

Lemma run_handleResourcesGet (e : env) (message : Message.t) w :
  ∃ r calls,
    run e (handleResourcesGet message) w [] = (Returned tt, Server.write r w, calls)
    ∧ response_id r = Message.id message.
Proof.
  unfold handleResourcesGet.
  destruct (truthy (Params.name (default Params.empty (Message.params message))));
    cbn [negb]; [|by eexists _, _].
  destruct (strict_eq _ _); by eexists _, _.
Qed.

Lemma responses_once {A} (e : env) (p : prog A) (id : jsval) w :
  (∃ r o calls, run e p w [] = (o, Server.write r w, calls)
                ∧ response_id r = id) →
  ∃ r, responses e p w = [r] ∧ response_id r = id.
Proof.
  intros (r & o & calls & Hrun & Hid). exists r. split; [|done].
  by eapply responses_write.
Qed.

(** A request for a method of the table is answered once, under its own
    id, unless it is an [initialize] whose id is falsy. *)
Lemma request_answered_once (e : env) (id : jsval) (method : string)
    (params : option Params.t) (w : Server.t) :
  method ∈ methods →
  (method = "initialize" → truthy id = true) →
  ∃ r, responses e (handleJsonRpcMessage (request id method params)) w = [r]
       ∧ response_id r = id.
Proof.
  intros Hmethod Hid. apply responses_once. unfold methods in Hmethod.
  repeat (apply elem_of_cons in Hmethod as [-> | Hmethod]);
    [..| by apply elem_of_nil in Hmethod];
    unfold handleJsonRpcMessage, request; simpl; switch;
    rewrite ?run_try_catch.
  - specialize (Hid eq_refl). unfold sendInitializeResult.
    destruct id; simpl in Hid; try done; simpl; rewrite ?Hid;
      by eexists _, _, _.
  - by eexists _, _, _.
  - by eexists _, _, _.
  - rewrite run_await_async.
    destruct (run_handleToolsCall e (Message.mk (VStr "2.0") id
                (VStr "tools/call") params) w) as (r & calls & -> & Hr).
    by eexists _, _, _.
  - by eexists _, _, _.
  - rewrite run_await_async.
    destruct (run_handleResourcesGet e (Message.mk (VStr "2.0") id
                (VStr "resources/get") params) w) as (r & calls & -> & Hr).
    by eexists _, _, _.
Qed.

(** C1, at the inputs where the code departs from it. An [initialize]
    request whose id is the number 0 or the empty string is answered once,
    but under the id the engine takes from its own counter, which it
    advances, and not under the id of the request. *)
Theorem initialize_falsy_id_replaced (e : env) (params : option Params.t)
    (w : Server.t) (calls : list call) :
  run e (handleJsonRpcMessage (request (VNum 0) "initialize" params)) w calls
  = (Returned tt,
     Server.write (ResultResponse (VNum (Server.nextId w)) initialize_result)
       (Server.with_nextId (Server.nextId w + 1) w),
     calls)
  ∧ run e (handleJsonRpcMessage (request (VStr "") "initialize" params)) w calls
    = (Returned tt,
       Server.write (ResultResponse (VNum (Server.nextId w)) initialize_result)
         (Server.with_nextId (Server.nextId w + 1) w),
       calls)
  ∧ responses e
      (bind start
         (λ _, handleJsonRpcMessage (request (VNum 0) "initialize" params)))
      (Server.mk (Server.settings w) (Server.repoMixIntegration w) 1
                 (Server.tiktoken w) [])
    = [ResultResponse (VNum 1) initialize_result;
       ResultResponse (VNum 2) initialize_result].
Proof. repeat split. Qed.

(** A request that supplies no override has no such protection: started
    while the first request of the scenario is in flight, its scan uses the
    override of that request, not the configured patterns. *)
Lemma override_reaches_plain_request :
  ∃ l,
    turns Scenario.disk [Start 0; Start 1]
      (initial Scenario.server
         [Scenario.generate 1 "/a" ["*.md"];
          tools_call (VNum 2) (VStr "generate_markdown")
            (Some (Input.mk (Some "/b") None None None None None None None))])
    = Some l
    ∧ scans_of 1 (Loop.log l) = [["*.md"]]
    ∧ Settings.ignorePatterns (Server.settings Scenario.server)
      = ["node_modules"].
Proof. eexists. split; [reflexivity|]. by vm_compute. Qed.

(** ** A request alone in the event loop *)

Lemma run_turn_calls {A} (tokenizer : env) (p : prog A) w calls :
  run_turn tokenizer p w calls =
  ((run_turn tokenizer p w []).1.1, (run_turn tokenizer p w []).1.2,
   calls ++ (run_turn tokenizer p w []).2).
Proof.
  revert w calls. induction p as [| | k IH | w' k IH | c k IH | k IH];
    intros w calls; simpl; auto.
  - by rewrite app_nil_r.
  - by rewrite app_nil_r.
  - destruct (is_sync c); simpl; [|done].
    rewrite (IH _ w (calls ++ [c])), (IH _ w [c]). simpl.
    by rewrite <- app_assoc.
  - by rewrite app_nil_r.
Qed.

Lemma run_calls {A} (e : env) (p : prog A) w calls :
  run e p w calls =
  ((run e p w []).1.1, (run e p w []).1.2, calls ++ (run e p w []).2).
Proof.
  revert w calls. induction p as [| | k IH | w' k IH | c k IH | k IH];
    intros w calls; simpl; auto.
  - by rewrite app_nil_r.
  - by rewrite app_nil_r.
  - rewrite (IH _ w (calls ++ [c])), (IH _ w [c]). simpl.
    by rewrite <- app_assoc.
Qed.

(** [run] is the event loop with one task moving: resumed as often as it
    suspends, with the answers of [e], task [i] ends as [run] says, in the
    state [run] says, having made the calls [run] says. *)
Lemma run_alone (e : env) (p : prog unit) (i : nat) (l : Loop.t) :
  (i < length (Loop.tasks l))%nat →
  turns e (replicate (suspensions e p (Loop.world l)) (Resume i e))
        (advance e i p l)
  = Some (Loop.mk (final_state (run e p (Loop.world l) []))
            (<[i := Running (Settled (run e p (Loop.world l) []).1.1)]>
               (Loop.tasks l))
            (Loop.log l ++ (pair i <$> calls_made (run e p (Loop.world l) [])))).
Proof.
  revert l. induction p as [a | m | k IH | w' k IH | c k IH | k IH];
    intros [w tasks log] Hi.
  - reflexivity.
  - reflexivity.
  - apply (IH w (Loop.mk w tasks log) Hi).
  - apply (IH (Loop.mk w' tasks log) Hi).
  - cbn [suspensions run Loop.world Loop.tasks Loop.log].
    rewrite (run_calls e (k (e c)) w ([] ++ [c])).
    unfold final_state, calls_made. cbn [fst snd].
    destruct (is_sync c) eqn:Hsync.
    + specialize (IH (e c) (Loop.mk w tasks (log ++ [(i, c)])) Hi).
      unfold advance in *. cbn [run_turn Loop.world Loop.tasks Loop.log] in *.
      rewrite Hsync. rewrite (run_turn_calls e (k (e c)) w ([] ++ [c])).
      unfold final_state, calls_made in IH.
      destruct (run_turn e (k (e c)) w []) as [[p' w1] calls1].
      destruct (run e (k (e c)) w []) as [[o w2] calls2].
      simpl in *. rewrite <- !app_assoc in IH. exact IH.
    + assert (advance e i (Call c k) (Loop.mk w tasks log)
              = Loop.mk w (<[i := Running (AtCall c k)]> tasks)
                        (log ++ [(i, c)])) as ->.
      { unfold advance. simpl. by rewrite Hsync. }
      cbn [Nat.add replicate turns turn Loop.tasks].
      rewrite list_lookup_insert_eq by done.
      specialize (IH (e c) (Loop.mk w (<[i := Running (AtCall c k)]> tasks)
                              (log ++ [(i, c)]))).
      cbn [Loop.world Loop.tasks Loop.log] in IH.
      rewrite length_insert in IH. rewrite (IH Hi).
      rewrite list_insert_insert_eq. unfold final_state, calls_made.
      destruct (run e (k (e c)) w []) as [[o w2] calls2].
      simpl. by rewrite <- !app_assoc.
  - assert (advance e i (Tick k) (Loop.mk w tasks log)
            = Loop.mk w (<[i := Running (AtTick k)]> tasks) log) as ->.
    { unfold advance. simpl. by rewrite app_nil_r. }
    cbn [suspensions replicate turns turn Loop.tasks Loop.world].
    rewrite list_lookup_insert_eq by done.
    specialize (IH (Loop.mk w (<[i := Running (AtTick k)]> tasks) log)).
    cbn [Loop.world Loop.tasks Loop.log] in IH.
    rewrite length_insert in IH. rewrite (IH Hi).
    by rewrite list_insert_insert_eq.
Qed.

(** A request that is alone in the event loop is answered as [run] says. *)
Lemma request_alone (e : env) (m : Message.t) (w : Server.t) :
  turns e
    (Start 0 :: replicate (suspensions e (handleJsonRpcMessage m) w) (Resume 0 e))
    (initial w [m])
  = Some (Loop.mk (final_state (run e (handleJsonRpcMessage m) w []))
            [Running (Settled (run e (handleJsonRpcMessage m) w []).1.1)]
            (pair 0%nat <$> calls_made (run e (handleJsonRpcMessage m) w []))).
Proof.
  cbn [turns turn initial Loop.tasks fmap list_fmap lookup list_lookup].
  apply (run_alone e (handleJsonRpcMessage m) 0 (Loop.mk w [Waiting m] [])).
  simpl. lia.
Qed.

(** * The rest of the engine *)

(** ** The dispatcher as a whole *)

Lemma run_sendInitializeResult (e : env) (id : jsval) w calls :
  run e (sendInitializeResult id) w calls
  = if truthy id
    then (Returned tt, Server.write (ResultResponse id initialize_result) w,
          calls)
    else (Returned tt,
          Server.write (ResultResponse (VNum (Server.nextId w)) initialize_result)
            (Server.with_nextId (Server.nextId w + 1) w),
          calls).
Proof.
  unfold sendInitializeResult.
  destruct id as [| | [] | n | s]; simpl; try reflexivity.
  - destruct (Z.eqb n 0); reflexivity.
  - destruct (String.eqb s ""); reflexivity.
Qed.

(** How any message at all ends: the dispatcher returns, having written
    nothing, or one response under the message's id, or, for an [initialize]
    with a falsy id, one response under the next id of its own counter. *)
Lemma run_handleJsonRpcMessage (e : env) (m : Message.t) (w : Server.t) :
  ∃ w' calls,
    run e (handleJsonRpcMessage m) w [] = (Returned tt, w', calls)
    ∧ ((demands_response m = false ∧ w' = w ∧ calls = [])
       ∨ (demands_response m = true ∧ takes_fresh_id m = false
          ∧ ∃ r, w' = Server.write r w ∧ response_id r = Message.id m)
       ∨ (demands_response m = true ∧ takes_fresh_id m = true ∧ calls = []
          ∧ w' = Server.write
                   (ResultResponse (VNum (Server.nextId w)) initialize_result)
                   (Server.with_nextId (Server.nextId w + 1) w))).
Proof.
  unfold handleJsonRpcMessage, demands_response, takes_fresh_id.
  destruct (strict_eq (Message.jsonrpc m) (VStr "2.0")) eqn:Hrpc; cbn [negb orb andb].
  2: { eexists _, _. split; [reflexivity|]. right. left. by eauto. }
  destruct (truthy (Message.method m)) eqn:Hmethod.
  2: { eexists _, _. split; [reflexivity|]. by left. }
  rewrite run_try_catch.
  destruct (strict_eq (Message.method m) (VStr "initialize")) eqn:Hinit.
  { rewrite run_sendInitializeResult. cbn [andb].
    destruct (truthy (Message.id m)); eexists _, _;
      (split; [reflexivity|]); cbn [negb]; [right; left | right; right];
      by eauto. }
  cbn [andb].
  repeat match goal with
    | |- context [if strict_eq ?a ?b then _ else _] =>
        destruct (strict_eq a b)
    end;
    rewrite ?run_await_async;
    try (eexists _, _; split; [reflexivity|]; right; left; by eauto).
  - destruct (run_handleToolsCall e m w) as (r & calls & -> & Hr).
    eexists _, _. split; [reflexivity|]. right. left. by eauto.
  - destruct (run_handleResourcesGet e m w) as (r & calls & -> & Hr).
    eexists _, _. split; [reflexivity|]. right. left. by eauto.
Qed.

(** X1. What the dispatcher does with a parsed line, however the
    collaborators answer. For [null] it throws before it has sent or
    changed anything: this failure is not contained. For every other
    parsed value whose [jsonrpc], [id], [method] and [params.name] are
    scalars or absent it returns and does not throw, writes at most one
    response, exactly one unless the envelope is valid and there is no
    method, leaves the shared settings as they were and never lowers its
    id counter. *)
Theorem dispatcher_contains_failures (e : env) (message : parsed)
    (w : Server.t) :
  match message with
  | JNull =>
      ∃ error, run e (handleParsedMessage message) w [] = (Thrown error, w, [])
  | JValue m =>
      (run e (handleParsedMessage message) w []).1.1 = Returned tt
      ∧ length (responses e (handleParsedMessage message) w)
        = (if demands_response m then 1 else 0)%nat
      ∧ Server.settings
          (final_state (run e (handleParsedMessage message) w []))
        = Server.settings w
      ∧ Server.nextId w
        ≤ Server.nextId
            (final_state (run e (handleParsedMessage message) w []))
  end.
Proof.
  destruct message as [| m]; [by eexists|].
  unfold responses. cbn [handleParsedMessage].
  destruct (run_handleJsonRpcMessage e m w) as (w' & calls & -> & Hw').
  unfold final_state. simpl.
  destruct Hw' as [(-> & -> & _) | [(-> & _ & r & -> & _) | (-> & _ & _ & ->)]];
    simpl; rewrite ?drop_app_length, ?drop_all; repeat split; simpl; lia.
Qed.

Lemma unknown_method_from_table (method : jsval) (n : string) :
  (∀ n, n ∈ methods → method ≠ VStr n) → n ∈ methods → method ≠ VStr n.
Proof. auto. Qed.

(** X2. A request with a valid envelope whose method is a truthy scalar
    and is none of the six methods of the table is answered by the error
    response -32601 under its id; nothing else is written, no collaborator
    is called and the state is otherwise left as it was. The message is
    "Method not found: <method>", the method printed as [template] prints
    it, for a string, a boolean and a safe integer. *)
Theorem unknown_method_rejected (id method : jsval)
    (params : option Params.t) (e : env) (w : Server.t) (calls : list call) :
  truthy method = true →
  (∀ n, n ∈ methods → method ≠ VStr n) →
  ∃ message,
    run e (handleJsonRpcMessage (Message.mk (VStr "2.0") id method params))
        w calls
    = (Returned tt, Server.write (ErrorResponse id (-32601) message) w, calls)
    ∧ (printable method = true →
       message = "Method not found: " +:+ template method).
Proof.
  intros Htruthy Hunknown.
  assert (method ≠ VStr "initialize") by (apply Hunknown; registered).
  assert (method ≠ VStr "shutdown") by (apply Hunknown; registered).
  assert (method ≠ VStr "tools/list") by (apply Hunknown; registered).
  assert (method ≠ VStr "tools/call") by (apply Hunknown; registered).
  assert (method ≠ VStr "resources/list") by (apply Hunknown; registered).
  assert (method ≠ VStr "resources/get") by (apply Hunknown; registered).
  unfold handleJsonRpcMessage. simpl. rewrite Htruthy. switch.
  by eexists.
Qed.

Lemma unknown_method_rejected_witness :
  ∃ message,
    run Scenario.disk
        (handleJsonRpcMessage
           (Message.mk (VStr "2.0") (VStr "q1") (VStr "prompts/list") None))
        Scenario.server []
    = (Returned tt,
       Server.write (ErrorResponse (VStr "q1") (-32601) message)
         Scenario.server,
       [])
    ∧ (printable (VStr "prompts/list") = true →
       message = "Method not found: prompts/list").
Proof.
  apply (unknown_method_rejected (VStr "q1") (VStr "prompts/list") None
           Scenario.disk Scenario.server []).
  - reflexivity.
  - intros n Hn Heq. vm_compute in Hn.
    repeat (apply elem_of_cons in Hn as [-> | Hn]; [discriminate Heq|]).
    by apply elem_of_nil in Hn.
Defined.

(** ** Tool calls *)

Lemma tool_handler_names (name : string) (input : option Input.t) :
  is_Some (tool_handler name input) ↔ name ∈ tool_names.
Proof.
  unfold tool_handler. split.
  - repeat match goal with
      | |- context [String.eqb name ?s] =>
          destruct (String.eqb_spec name s) as [-> | ?]; [intros _; registered|]
      end.
    by intros [? ?].
  - intros Hin. vm_compute in Hin.
    repeat (apply elem_of_cons in Hin as [-> | Hin]; [by eexists|]).
    by apply elem_of_nil in Hin.
Qed.

(** The run of a [tools/call] request in terms of the run of the handler
    of the tool. *)
Lemma run_tools_call (name : string) (input : option Input.t)
    (handler : prog tool_result) (id : jsval) (e : env) (w : Server.t)
    (calls : list call) :
  tool_handler name input = Some handler →
  run e (handleJsonRpcMessage (tools_call id (VStr name) input)) w calls
  = match run e handler w calls with
    | (Returned r, w', calls') =>
        (Returned tt, Server.write (ResultResponse id (ToolCallResult r)) w',
         calls')
    | (Thrown m, w', calls') =>
        (Returned tt,
         Server.write
           (ErrorResponse id (-32603) ("Error handling tool call: " +:+ m)) w',
         calls')
    end.
Proof.
  intros Hhandler.
  assert (truthy (VStr name) = true) as Hname.
  { simpl. destruct (String.eqb_spec name ""); [subst; done | done]. }
  unfold handleJsonRpcMessage, tools_call, request. simpl. switch. simpl.
  rewrite run_try_catch, run_await_async.
  unfold handleToolsCall. cbn. simpl in Hname. rewrite Hname. cbn [negb].
  unfold tool_handler in Hhandler.
  repeat match type of Hhandler with
    | context [String.eqb name ?s] =>
        let E := fresh "E" in
        destruct (String.eqb name s) eqn:E;
        [apply String.eqb_eq in E; subst name;
         injection Hhandler as <-; switch;
         rewrite run_try_catch; unfold mbind, prog_bind;
         rewrite run_bind, run_await_async;
         match goal with
         | |- context [run e ?h w calls] =>
             destruct (run e h w calls) as [[[r | m] w'] calls'];
             reflexivity
         end
        | apply String.eqb_neq in E]
    end.
  done.
Qed.

(** X3. [tools/call] on a registered tool is the handler of that tool,
    wrapped: what the handler returns is sent as the result [{ result }]
    under the request's id; what it throws is sent as the error -32603
    "Error handling tool call: <message>"; the state the handler leaves and
    the collaborator calls it makes are those of the request. *)
Theorem tools_call_wraps_handler (name : string) (input : option Input.t)
    (handler : prog tool_result) (id : jsval) (e : env) (w : Server.t)
    (calls : list call) :
  tool_handler name input = Some handler →
  run e (handleJsonRpcMessage (tools_call id (VStr name) input)) w calls
  = match run e handler w calls with
    | (Returned r, w', calls') =>
        (Returned tt, Server.write (ResultResponse id (ToolCallResult r)) w',
         calls')
    | (Thrown m, w', calls') =>
        (Returned tt,
         Server.write
           (ErrorResponse id (-32603) ("Error handling tool call: " +:+ m)) w',
         calls')
    end.
Proof. apply run_tools_call. Qed.

Lemma tools_call_wraps_handler_witness :
  run Scenario.disk
      (handleJsonRpcMessage
         (tools_call (VNum 8) (VStr "get_directory_structure")
            (Some (Input.mk (Some "/a") None None None None None None None))))
      Scenario.server []
  = (Returned tt,
     Server.write
       (ResultResponse (VNum 8)
          (ToolCallResult
             (DirectoryStructureResult true
                (Item "directory" "/a" (Some [Item "file" "a.js" None])))))
       Scenario.server,
     [getDirectoryStructure "/a" ["node_modules"]]).
Proof.
  apply (tools_call_wraps_handler "get_directory_structure"
           (Some (Input.mk (Some "/a") None None None None None None None))
           _ (VNum 8) Scenario.disk Scenario.server [] eq_refl).
Defined.

Lemma missing_required_throws (e : env) (tool : tool_descriptor) (p : string)
    (input : option Input.t) (w : Server.t) (calls : list call) :
  tool ∈ tools → p ∈ tool_required tool → provides input p = false →
  ∃ handler m,
    tool_handler (tool_name tool) input = Some handler
    ∧ run e handler w calls = (Thrown m, w, calls).
Proof.
  intros Htool Hp Hmissing. unfold tools in Htool.
  repeat (apply elem_of_cons in Htool as [-> | Htool]);
    [..| by apply elem_of_nil in Htool];
    simpl in Hp; apply list_elem_of_singleton in Hp as ->;
    destruct input as [i|]; simpl in Hmissing;
    destruct (Server.repoMixIntegration w) eqn:Hrepo;
    (eexists _, _; split; [reflexivity|]);
    unfold handleGenerateMarkdown, handlePackRemoteRepository,
      handleProcessWithSecurity, handleCountTokens,
      handleGetDirectoryStructure;
    simpl; rewrite ?Hmissing, ?Hrepo; reflexivity.
Qed.

(** X4. Every property a tool descriptor lists as required is checked by
    the tool's handler before anything else happens: a [tools/call] on a
    registered tool whose input lacks a truthy value for a required
    property is answered with the error -32603, no collaborator is called
    and the state is otherwise left as it was. *)
Theorem required_properties_checked_first (tool : tool_descriptor)
    (p : string) (input : option Input.t) (id : jsval) (e : env)
    (w : Server.t) (calls : list call) :
  tool ∈ tools →
  p ∈ tool_required tool →
  provides input p = false →
  ∃ message,
    run e (handleJsonRpcMessage (tools_call id (VStr (tool_name tool)) input))
        w calls
    = (Returned tt, Server.write (ErrorResponse id (-32603) message) w, calls).
Proof.
  intros Htool Hp Hmissing.
  destruct (missing_required_throws e tool p input w calls Htool Hp Hmissing)
    as (handler & m & Hhandler & Hrun).
  rewrite (run_tools_call _ _ _ id e w calls Hhandler), Hrun.
  by eexists.
Qed.

Lemma required_properties_checked_first_witness :
  ∃ message,
    run Scenario.disk
        (handleJsonRpcMessage
           (tools_call (VNum 6) (VStr "count_tokens")
              (Some (Input.mk None None None (Some "") (Some "claude") None
                              None None))))
        Scenario.server []
    = (Returned tt,
       Server.write (ErrorResponse (VNum 6) (-32603) message) Scenario.server,
       []).
Proof.
  apply (required_properties_checked_first
           (mkTool "count_tokens" [("text", "string"); ("model", "string")]
                   ["text"])
           "text"
           (Some (Input.mk None None None (Some "") (Some "claude") None None
                           None))
           (VNum 6) Scenario.disk Scenario.server []).
  - registered.
  - registered.
  - reflexivity.
Defined.





(** X7. [get_directory_structure] with a non-empty [folderPath] starts
    exactly one scan, with the [ignorePatterns] of the request when it
    supplies them and with those of the settings otherwise; the tree is
    returned as the result, a failure of the scan as the error -32603; the
    shared settings are not written at any point. *)
Theorem directory_structure_uses_request_patterns (i : Input.t) (id : jsval)
    (e : env) (w : Server.t) (calls : list call) :
  truthy_str (Input.folderPath i) = true →
  let c := getDirectoryStructure (default "" (Input.folderPath i))
             (default (Settings.ignorePatterns (Server.settings w))
                      (Input.ignorePatterns i)) in
  run e (handleJsonRpcMessage
           (tools_call id (VStr "get_directory_structure") (Some i))) w calls
  = (Returned tt,
     Server.write
       (match e c with
        | Returned tree =>
            ResultResponse id
              (ToolCallResult (DirectoryStructureResult true tree))
        | Thrown m =>
            ErrorResponse id (-32603) ("Error handling tool call: " +:+ m)
        end) w,
     calls ++ [c])
  ∧ obeys False (λ _, True) (handleGetDirectoryStructure (Some i)).
Proof.
  intros Hfolder c. split.
  - rewrite (run_tools_call "get_directory_structure" (Some i) _ id
               e w calls eq_refl).
    unfold handleGetDirectoryStructure, mbind, prog_bind.
    rewrite Hfolder. cbn [negb bind get run await]. fold c.
    by destruct (e c).
  - unfold handleGetDirectoryStructure, mbind, prog_bind. obey; done.
Qed.

Lemma directory_structure_uses_request_patterns_witness :
  run Scenario.disk
      (handleJsonRpcMessage
         (tools_call (VNum 8) (VStr "get_directory_structure")
            (Some (Input.mk (Some "/a") None (Some ["*.tmp"]) None None None
                            None None))))
      Scenario.server []
  = (Returned tt,
     Server.write
       (ResultResponse (VNum 8)
          (ToolCallResult
             (DirectoryStructureResult true
                (Item "directory" "/a" (Some [Item "file" "a.js" None])))))
       Scenario.server,
     [getDirectoryStructure "/a" ["*.tmp"]]).
Proof.
  apply (directory_structure_uses_request_patterns
           (Input.mk (Some "/a") None (Some ["*.tmp"]) None None None None None)
           (VNum 8) Scenario.disk Scenario.server [] eq_refl).
Defined.

(** X8. When no credential is configured, [resources/get] of "settings"
    returns the settings exactly as they are: nothing is redacted and no
    marker is put in. *)
Theorem settings_without_credential_returned_as_is (id : jsval)
    (params : Params.t) (e : env) (w : Server.t) (calls : list call) :
  Params.name params = VStr "settings" →
  truthy_str (Settings.anthropicApiKey (Server.settings w)) = false →
  run e (handleJsonRpcMessage (resources_get id params)) w calls
  = (Returned tt,
     Server.write (ResultResponse id (ResourceContent (Server.settings w))) w,
     calls).
Proof.
  intros Hname Hkey.
  unfold handleJsonRpcMessage, resources_get, request. simpl. switch. simpl.
  rewrite run_try_catch, run_await_async.
  unfold handleResourcesGet. simpl. rewrite Hname. simpl. by rewrite Hkey.
Qed.

Lemma settings_without_credential_returned_as_is_witness :
  run Scenario.disk
      (handleJsonRpcMessage
         (resources_get (VNum 9) (Params.mk (VStr "settings") None)))
      Scenario.server []
  = (Returned tt,
     Server.write
       (ResultResponse (VNum 9) (ResourceContent (Settings.mk ["node_modules"] None ∅)))
       Scenario.server,
     []).
Proof.
  apply (settings_without_credential_returned_as_is (VNum 9)
           (Params.mk (VStr "settings") None) Scenario.disk Scenario.server []
           eq_refl eq_refl).
Defined.

(** ** The token counters *)

Lemma Object_prototype_not_in_table (model : string) :
  model ∈ Object_prototype → modelToEncoding !! model = None.
Proof.
  intros Hin. unfold Object_prototype in Hin.
  repeat (apply elem_of_cons in Hin as [-> | Hin]; [by vm_compute|]).
  by apply elem_of_nil in Hin.
Qed.

(** X9. [countOpenAITokens] never throws and leaves the state alone,
    whatever the model. When the tokenizer library failed to load it
    returns -1 without calling anything. Otherwise, for a model of its table
    it calls the tokenizer once with the encoding the table gives that
    model, and for a model that is neither in the table nor the name of an
    inherited property once with "cl100k_base", and returns the number of
    tokens, or -1 when the tokenizer throws. For the name of an inherited
    property ("constructor", "toString", ...) it returns -1 and encodes
    nothing. *)
Theorem openai_tokens_or_sentinel (text model : string) (e : env)
    (w : Server.t) (calls : list call) :
  run e (countOpenAITokens text model) w calls
  = (if Server.tiktoken w
     then
       match encoding_of model with
       | Some encoding =>
           (Returned
              match e (tiktoken_encode encoding text) with
              | Returned tokens => Z.of_nat (length tokens)
              | Thrown _ => -1
              end,
            w, calls ++ [tiktoken_encode encoding text])
       | None => (Returned (-1), w, calls)
       end
     else (Returned (-1), w, calls))
  ∧ (∀ encoding,
       modelToEncoding !! model = Some encoding →
       encoding_of model = Some encoding)
  ∧ (model ∈ Object_prototype → encoding_of model = None)
  ∧ (modelToEncoding !! model = None → model ∉ Object_prototype →
     encoding_of model = Some "cl100k_base")
  ∧ ∃ n, (run e (countOpenAITokens text model) w calls).1.1 = Returned n
         ∧ -1 ≤ n.
Proof.
  assert (run e (countOpenAITokens text model) w calls
          = (if Server.tiktoken w
             then
               match encoding_of model with
               | Some encoding =>
                   (Returned
                      match e (tiktoken_encode encoding text) with
                      | Returned tokens => Z.of_nat (length tokens)
                      | Thrown _ => -1
                      end,
                    w, calls ++ [tiktoken_encode encoding text])
               | None => (Returned (-1), w, calls)
               end
             else (Returned (-1), w, calls))) as Hrun.
  { unfold countOpenAITokens. rewrite run_try_catch. simpl.
    destruct (Server.tiktoken w); simpl; [|done].
    destruct (encoding_of model) as [encoding|]; simpl; [|done].
    by destruct (e (tiktoken_encode encoding text)). }
  assert (∃ n, (run e (countOpenAITokens text model) w calls).1.1 = Returned n
               ∧ -1 ≤ n) as Hreturns.
  { rewrite Hrun. destruct (Server.tiktoken w); simpl; [|by eexists].
    destruct (encoding_of model) as [encoding|]; simpl; [|by eexists].
    destruct (e (tiktoken_encode encoding text)); simpl;
      eexists; (split; [reflexivity|]); lia. }
  split; [done|]. unfold encoding_of. split; [by intros encoding ->|].
  split.
  { intros Hin. rewrite (Object_prototype_not_in_table model Hin).
    by rewrite bool_decide_eq_true_2. }
  split; [|done].
  intros -> Hout. by rewrite bool_decide_eq_false_2.
Qed.

Lemma openai_tokens_or_sentinel_witness :
  run Scenario.disk (countOpenAITokens "let x" "davinci") Scenario.server []
  = (Returned 2, Scenario.server, [tiktoken_encode "p50k_base" "let x"])
  ∧ run Scenario.disk (countOpenAITokens "let x" "constructor")
        Scenario.server []
    = (Returned (-1), Scenario.server, []).
Proof.
  split.
  - exact (proj1 (openai_tokens_or_sentinel "let x" "davinci" Scenario.disk
                    Scenario.server [])).
  - exact (proj1 (openai_tokens_or_sentinel "let x" "constructor"
                    Scenario.disk Scenario.server [])).
Defined.

Lemma Math_ceil_nonneg (n : Z) : 0 ≤ n → 0 ≤ Math_ceil (n # 4).
Proof. intros Hn. pose proof (Math_ceil_quarter n). lia. Qed.

Lemma text_length_nonneg (text : string) : 0 ≤ text_length text.
Proof. unfold text_length. lia. Qed.

(** X10. [countClaudeTokensWithAPI] never throws, never returns the
    sentinel -1 and leaves the state alone. Without a key it makes no
    request and returns the approximation; with a key it makes one request
    and returns the number of tokens of the answer, or the approximation
    when the request fails or its answer carries no tokens. *)
Theorem claude_api_count_falls_back (text : string) (apiKey : option string)
    (e : env) (w : Server.t) (calls : list call) :
  let approx := Math_ceil (text_length text # 4) in
  let c := axios_post_tokenize text (default "" apiKey) in
  run e (countClaudeTokensWithAPI text apiKey) w calls
  = (if truthy_str apiKey
     then (Returned
             match e c with
             | Returned (Some tokens) => Z.of_nat (length tokens)
             | Returned None | Thrown _ => approx
             end,
           w, calls ++ [c])
     else (Returned approx, w, calls))
  ∧ ∃ n, (run e (countClaudeTokensWithAPI text apiKey) w calls).1.1
         = Returned n ∧ 0 ≤ n.
Proof.
  intros approx c. unfold countClaudeTokensWithAPI.
  pose proof (Math_ceil_nonneg _ (text_length_nonneg text)).
  destruct (truthy_str apiKey); cbn [negb].
  - rewrite run_try_catch. unfold mbind, prog_bind. cbn [bind await run].
    fold c. destruct (e c) as [[tokens|]|m]; (split; [reflexivity|]);
      eexists; (split; [reflexivity|]); fold approx; lia.
  - split; [reflexivity|]. by eexists.
Qed.

Lemma run_claude_api_count (text : string) (apiKey : option string) (e : env)
    (w : Server.t) (calls : list call) :
  ∃ n extra,
    run e (countClaudeTokensWithAPI text apiKey) w calls
    = (Returned n, w, calls ++ extra)
    ∧ 0 ≤ n ∧ (length extra ≤ 1)%nat.
Proof.
  pose proof (Math_ceil_nonneg _ (text_length_nonneg text)).
  unfold countClaudeTokensWithAPI. destruct (truthy_str apiKey); cbn [negb].
  - rewrite run_try_catch. unfold mbind, prog_bind. cbn [bind await run].
    destruct (e (axios_post_tokenize text (default "" apiKey)))
      as [[tokens|]|m];
      eexists _, [_]; (split; [reflexivity|]); simpl; lia.
  - eexists _, []. rewrite app_nil_r. split; [reflexivity|]. simpl. lia.
Qed.

(** X11. The statistics are best effort: [calculateStats] never throws and
    leaves the state alone, whatever the tokenizer and the network do. The
    [characterCount] is the length of the text, [openAiTokens] is a count
    or the sentinel -1 (always -1 when the tokenizer library is missing),
    [claudeTokens] is always a count, never the sentinel; at most two
    calls are made. *)
Theorem statistics_are_best_effort (text : string) (e : env) (w : Server.t)
    (calls : list call) :
  ∃ stats extra,
    run e (calculateStats text) w calls = (Returned stats, w, calls ++ extra)
    ∧ characterCount stats = text_length text
    ∧ -1 ≤ openAiTokens stats
    ∧ (Server.tiktoken w = false → openAiTokens stats = -1)
    ∧ 0 ≤ claudeTokens stats
    ∧ (length extra ≤ 2)%nat.
Proof.
  pose proof (Math_ceil_nonneg _ (text_length_nonneg text)) as Happrox.
  assert (∃ n ex1,
            run e (countOpenAITokens text "gpt-4o") w calls
            = (Returned n, w, calls ++ ex1)
            ∧ -1 ≤ n ∧ (Server.tiktoken w = false → n = -1)
            ∧ (length ex1 ≤ 1)%nat) as (n & ex1 & Hopen & Hn & Hmissing & Hex1).
  { unfold countOpenAITokens. rewrite run_try_catch, gpt_4o_encoding.
    simpl. destruct (Server.tiktoken w); simpl.
    - destruct (e (tiktoken_encode "cl100k_base" text)); simpl;
        eexists _, [_]; (split; [reflexivity|]); simpl;
        repeat split; try done; lia.
    - eexists _, []. rewrite app_nil_r. split; [reflexivity|]. simpl.
      repeat split; try done; lia. }
  unfold calculateStats, mbind, prog_bind.
  rewrite run_bind, run_try_catch, Hopen.
  rewrite run_bind, run_try_catch. cbn [bind get run].
  destruct (truthy_str (Settings.anthropicApiKey (Server.settings w))).
  - rewrite run_await_async.
    destruct (run_claude_api_count text
                (Settings.anthropicApiKey (Server.settings w)) e w
                (calls ++ ex1)) as (c & ex2 & -> & Hc & Hex2).
    exists (mkStats (text_length text) n c), (ex1 ++ ex2).
    rewrite app_assoc. split; [reflexivity|]. simpl.
    rewrite length_app. repeat split; try done; lia.
  - exists (mkStats (text_length text) n (Math_ceil (text_length text # 4))), ex1.
    split; [reflexivity|]. simpl. repeat split; try done; lia.
Qed.

Lemma text_length_app (a b : string) :
  text_length (a +:+ b) = text_length a + text_length b.
Proof.
  unfold text_length. induction a as [| c a IH].
  - change ("" +:+ b) with b. simpl. lia.
  - change (String c a +:+ b) with (String c (a +:+ b)).
    cbn [String.length]. lia.
Qed.

(** X12. The approximation [Math.ceil(text.length / 4)] is 0 for the empty
    text only, does not decrease when text is appended, and for a
    concatenation is at most the sum of the approximations of the parts. *)
Theorem approximation_grows_with_text (a b : string) :
  let approx := λ text, Math_ceil (text_length text # 4) in
  (∀ e w calls,
     run e (countClaudeTokensApprox a) w calls = (Returned (approx a), w, calls))
  ∧ (approx a = 0 ↔ a = "")
  ∧ approx a ≤ approx (a +:+ b)
  ∧ approx (a +:+ b) ≤ approx a + approx b.
Proof.
  intros approx. unfold approx.
  pose proof (Math_ceil_quarter (text_length a)).
  pose proof (Math_ceil_quarter (text_length b)).
  pose proof (Math_ceil_quarter (text_length (a +:+ b))).
  pose proof (text_length_app a b) as Hlen.
  pose proof (text_length_nonneg a). pose proof (text_length_nonneg b).
  split; [done|]. split; [|lia].
  split.
  - intros Hzero. destruct a; [done|]. unfold text_length in *. simpl in *.
    lia.
  - intros ->. reflexivity.
Qed.

(** ** The main tool *)







(** ** The registry and the dispatch *)

Lemma tool_handler_leaves_state (name : string) (input : option Input.t)
    (handler : prog tool_result) (e : env) (w : Server.t) (calls : list call) :
  tool_handler name input = Some handler →
  final_state (run e handler w calls) = w.
Proof.
  unfold tool_handler. intros Hhandler.
  destruct (tool_handlers_leave_state e input w calls)
    as (Hcount & Hdir & Hpack & Hsec).
  pose proof (handleGenerateMarkdown_leaves_state e input w calls) as Hgen.
  repeat match type of Hhandler with
    | context [String.eqb name ?s] =>
        destruct (String.eqb name s); [by injection Hhandler as <-|]
    end.
  done.
Qed.

(** X20. The tools that [tools/list] advertises are the tools that
    [tools/call] serves: a call of an advertised tool is never rejected as
    unknown or unnamed. It is answered once, under the id of the request,
    with a result or with the error -32603 that carries the failure of the
    tool, and the state is otherwise as before. *)
Theorem advertised_tools_are_served (tool : tool_descriptor)
    (input : option Input.t) (id : jsval) (e : env) (w : Server.t)
    (calls : list call) :
  tool ∈ tools →
  (∀ id', responses e (handleToolsList (request id' "tools/list" None)) w
          = [ResultResponse id' (ToolsList tools)])
  ∧ ∃ r calls',
      run e (handleJsonRpcMessage (tools_call id (VStr (tool_name tool)) input))
          w calls
      = (Returned tt, Server.write r w, calls')
      ∧ ((∃ value, r = ResultResponse id (ToolCallResult value))
         ∨ ∃ m, r = ErrorResponse id (-32603)
                      ("Error handling tool call: " +:+ m)).
Proof.
  intros Htool. split.
  { intros id'. unfold responses, handleToolsList, sendResult, sendMessage.
    simpl. by rewrite drop_app_length. }
  assert (tool_name tool ∈ tool_names) as Hname
    by (by apply list_elem_of_fmap_2).
  apply (tool_handler_names _ input) in Hname as [handler Hhandler].
  rewrite (run_tools_call _ _ _ id e w calls Hhandler).
  pose proof (tool_handler_leaves_state _ _ _ e w calls Hhandler) as Hstate.
  unfold final_state in Hstate.
  destruct (run e handler w calls) as [[[value | m] w'] calls'];
    simpl in Hstate; subst w'; eexists _, _; (split; [reflexivity|]).
  - left. by eexists.
  - right. by eexists.
Qed.

Lemma advertised_tools_are_served_witness :
  (∀ id', responses Scenario.disk
            (handleToolsList (request id' "tools/list" None)) Scenario.server
          = [ResultResponse id' (ToolsList tools)])
  ∧ ∃ r calls',
      run Scenario.disk
          (handleJsonRpcMessage
             (tools_call (VNum 3) (VStr "process_with_security") None))
          Scenario.server []
      = (Returned tt, Server.write r Scenario.server, calls')
      ∧ ((∃ value, r = ResultResponse (VNum 3) (ToolCallResult value))
         ∨ ∃ m, r = ErrorResponse (VNum 3) (-32603)
                      ("Error handling tool call: " +:+ m)).
Proof.
  apply (advertised_tools_are_served
           (mkTool "process_with_security"
              [("folderPath", "string"); ("style", "string")] ["folderPath"])
           None (VNum 3) Scenario.disk Scenario.server []).
  registered.
Defined.

(** ** What programs write *)

Section Keeps.
Context (R : Server.t → Server.t → Prop).

Lemma keeps_weaken {A} (t : bool) (p : prog A) w :
  keeps R false p w → keeps R t p w.
Proof.
  revert w. induction p as [| | k IH | w' k IH | c k IH | k IH]; intros w Hp;
    simpl in *; auto; try done.
  - split; [apply Hp | apply IH, Hp].
  - intros o. specialize (Hp o). destruct (is_sync c); [by apply IH|].
    intros w'. apply IH, Hp.
Qed.

Lemma keeps_bind {A B} (t : bool) (p : prog A) (f : A → prog B) w :
  keeps R t p w → (∀ a w', keeps R t (f a) w') → keeps R t (bind p f) w.
Proof.
  intros Hp Hf. revert w Hp.
  induction p as [| | k IH | w' k IH | c k IH | k IH]; intros w Hp;
    simpl in *; auto.
  - split; [apply Hp | apply IH, Hp].
  - intros o. specialize (Hp o). destruct (is_sync c); [by apply IH|].
    intros w'. apply IH, Hp.
Qed.

Lemma keeps_try_catch {A} (t t' : bool) (p : prog A) (h : string → prog A) w :
  keeps R t' p w → (∀ m w', keeps R t (h m) w') →
  keeps R t (try_catch p h) w.
Proof.
  intros Hp Hh. revert w Hp.
  induction p as [| | k IH | w' k IH | c k IH | k IH]; intros w Hp;
    simpl in *; auto.
  - split; [apply Hp | apply IH, Hp].
  - intros o. specialize (Hp o). destruct (is_sync c); [by apply IH|].
    intros w'. apply IH, Hp.
Qed.

Lemma keeps_try_catch_never {A} (p : prog A) (h : string → prog A) w :
  keeps R false p w → keeps R false (try_catch p h) w.
Proof.
  revert w. induction p as [| | k IH | w' k IH | c k IH | k IH]; intros w Hp;
    simpl in *; auto; try done.
  - split; [apply Hp | apply IH, Hp].
  - intros o. specialize (Hp o). destruct (is_sync c); [by apply IH|].
    intros w'. apply IH, Hp.
Qed.

Lemma keeps_try_finally {A} (t : bool) (p : prog A) (f : prog unit) w :
  keeps R t p w → (∀ w', keeps R t f w') → keeps R t (try_finally p f) w.
Proof.
  intros Hp Hf. revert w Hp.
  induction p as [| | k IH | w' k IH | c k IH | k IH]; intros w Hp;
    simpl in *; auto.
  - by apply keeps_bind.
  - by apply keeps_bind.
  - split; [apply Hp | apply IH, Hp].
  - intros o. specialize (Hp o). destruct (is_sync c); [by apply IH|].
    intros w'. apply IH, Hp.
Qed.

Lemma keeps_await_async {A} (t : bool) (p : prog A) w :
  keeps R t p w → keeps R t (await_async p) w.
Proof.
  intros Hp. unfold await_async. destruct t.
  - apply (keeps_try_catch true true); [|done]. by apply keeps_bind.
  - apply keeps_try_catch_never. by apply keeps_bind.
Qed.

Lemma keeps_await (c : call) w : keeps R true (await c) w.
Proof. intros o. destruct (is_sync c); [by destruct o|]. by intros w'; destruct o. Qed.

Lemma keeps_get (t : bool) w : keeps R t get w.
Proof. done. Qed.

Lemma keeps_bind_get {A} (t : bool) (k : Server.t → prog A) w :
  keeps R t (k w) w → keeps R t (bind get k) w.
Proof. done. Qed.

Lemma keeps_modify (t : bool) (f : Server.t → Server.t) w :
  R w (f w) → keeps R t (modify f) w.
Proof. by split. Qed.

(** One turn of a program that keeps [R]. *)
Lemma run_turn_keeps {A} `{!Reflexive R, !Transitive R} (tokenizer : env)
    (t : bool) (p : prog A) w calls :
  keeps R t p w →
  R w (run_turn tokenizer p w calls).1.2
  ∧ keeps_paused R t (run_turn tokenizer p w calls).1.1.
Proof.
  revert w calls. induction p as [| | k IH | w' k IH | c k IH | k IH];
    intros w calls Hp; simpl in *; auto.
  - destruct Hp as [HR Hk]. destruct (IH w' calls Hk) as [HR' Hp'].
    split; [by etrans | done].
  - specialize (Hp (tokenizer c)) as Hsync. destruct (is_sync c); simpl.
    + by apply IH.
    + split; [done|]. intros o w'. apply (Hp o).
Qed.
End Keeps.

#[local] Instance same_output_refl : Reflexive same_output.
Proof. by intros w. Qed.
#[local] Instance same_output_trans : Transitive same_output.
Proof. unfold same_output. intros w1 w2 w3 H1 H2. by rewrite H2. Qed.
#[local] Instance same_settings_refl : Reflexive same_settings.
Proof. by intros w. Qed.
#[local] Instance same_settings_trans : Transitive same_settings.
Proof. unfold same_settings. intros w1 w2 w3 H1 H2. by rewrite H2. Qed.

Section Owes.
Context (P : response → Prop).

Lemma owes_weaken {A} (t : bool) (p : prog A) w :
  owes P false p w → owes P t p w.
Proof.
  revert w. induction p as [| | k IH | w' k IH | c k IH | k IH]; intros w Hp;
    simpl in *; auto; try done.
  - destruct Hp as [[Hsame Hk] | Hpaid]; [left | by right].
    split; [done | by apply IH].
  - intros o. specialize (Hp o). destruct (is_sync c); [by apply IH|].
    intros w'. apply IH, Hp.
Qed.

(** [p] writes nothing, then [f] pays. *)
Lemma owes_after {A B} (t : bool) (p : prog A) (f : A → prog B) w :
  keeps same_output t p w → (∀ a w', owes P t (f a) w') →
  owes P t (bind p f) w.
Proof.
  intros Hp Hf. revert w Hp.
  induction p as [| | k IH | w' k IH | c k IH | k IH]; intros w Hp;
    simpl in *; auto.
  - left. split; [apply Hp | apply IH, Hp].
  - intros o. specialize (Hp o). destruct (is_sync c); [by apply IH|].
    intros w'. apply IH, Hp.
Qed.

(** [p] pays, then [f] writes nothing and does not throw. *)
Lemma owes_before {A B} (t : bool) (p : prog A) (f : A → prog B) w :
  owes P t p w → (∀ a w', keeps same_output false (f a) w') →
  owes P t (bind p f) w.
Proof.
  intros Hp Hf. revert w Hp.
  induction p as [| | k IH | w' k IH | c k IH | k IH]; intros w Hp;
    simpl in *; auto; try done.
  - destruct Hp as [[Hsame Hk] | (r & Hr & -> & Hk)].
    + left. split; [done | by apply IH].
    + right. exists r. split; [done|]. split; [done|]. by apply keeps_bind.
  - intros o. specialize (Hp o). destruct (is_sync c); [by apply IH|].
    intros w'. apply IH, Hp.
Qed.

Lemma owes_try_catch {A} (t t' : bool) (p : prog A) (h : string → prog A) w :
  owes P t' p w → (∀ m w', owes P t (h m) w') → owes P t (try_catch p h) w.
Proof.
  intros Hp Hh. revert w Hp.
  induction p as [| | k IH | w' k IH | c k IH | k IH]; intros w Hp;
    simpl in *; auto; try done.
  - destruct Hp as [[Hsame Hk] | (r & Hr & -> & Hk)].
    + left. split; [done | by apply IH].
    + right. exists r. split; [done|]. split; [done|].
      by apply keeps_try_catch_never.
  - intros o. specialize (Hp o). destruct (is_sync c); [by apply IH|].
    intros w'. apply IH, Hp.
Qed.

Lemma owes_try_catch_never {A} (p : prog A) (h : string → prog A) w :
  owes P false p w → owes P false (try_catch p h) w.
Proof.
  revert w. induction p as [| | k IH | w' k IH | c k IH | k IH]; intros w Hp;
    simpl in *; auto; try done.
  - destruct Hp as [[Hsame Hk] | (r & Hr & -> & Hk)].
    + left. split; [done | by apply IH].
    + right. exists r. split; [done|]. split; [done|].
      by apply keeps_try_catch_never.
  - intros o. specialize (Hp o). destruct (is_sync c); [by apply IH|].
    intros w'. apply IH, Hp.
Qed.

Lemma owes_await_async {A} (t : bool) (p : prog A) w :
  owes P t p w → owes P t (await_async p) w.
Proof.
  intros Hp. unfold await_async. destruct t.
  - apply (owes_try_catch true true); [|done]. by apply owes_before.
  - apply owes_try_catch_never. by apply owes_before.
Qed.

Lemma owes_sendMessage (t : bool) (r : response) w :
  P r → owes P t (sendMessage r) w.
Proof. intros Hr. right. by exists r. Qed.

(** One turn of a program that owes a response: it still owes it, or it has
    written it and has nothing left to write. *)
Lemma run_turn_owes {A} (tokenizer : env) (t : bool) (p : prog A) w calls :
  owes P t p w →
  (same_output w (run_turn tokenizer p w calls).1.2
   ∧ owes_paused P t (run_turn tokenizer p w calls).1.1)
  ∨ (∃ r, P r
          ∧ Server.stdout (run_turn tokenizer p w calls).1.2
            = Server.stdout w ++ [r]
          ∧ keeps_paused same_output false (run_turn tokenizer p w calls).1.1).
Proof.
  revert w calls. induction p as [| | k IH | w' k IH | c k IH | k IH];
    intros w calls Hp; simpl in *; auto; try done.
  - by left.
  - destruct Hp as [[Hsame Hk] | (r & Hr & -> & Hk)].
    + destruct (IH w' calls Hk) as [[Hsame' Hp'] | (r & Hr & Hout & Hp')].
      * left. split; [by etrans | done].
      * right. exists r. split; [done|]. split; [|done].
        by rewrite Hout, Hsame.
    + right. exists r. split; [done|].
      destruct (run_turn_keeps same_output tokenizer false k
                  (Server.write r w) calls Hk) as [Hsame Hp'].
      split; [|done]. by rewrite Hsame.
  - specialize (Hp (tokenizer c)) as Hsync. destruct (is_sync c); simpl.
    + by apply IH.
    + left. split; [done|]. intros o w'. apply (Hp o).
  - left. by split.
Qed.
End Owes.

(** Walks through a program for [keeps], leaving the conditions on its
    writes. *)
Ltac keep :=
  repeat match goal with
    | |- keeps _ _ (Ret _) _ => exact I
    | |- keeps _ true (Throw _) _ => reflexivity
    | |- keeps _ _ get _ => apply keeps_get
    | |- keeps _ _ (bind get _) _ => apply keeps_bind_get; cbv beta
    | |- keeps _ _ (bind _ _) _ => apply keeps_bind; [|intros ? ?]
    | |- keeps _ _ (try_catch _ _) _ =>
        apply (keeps_try_catch _ _ true); [|intros ? ?]
    | |- keeps _ _ (try_finally _ _) _ => apply keeps_try_finally; [|intros ?]
    | |- keeps _ _ (await_async _) _ => apply keeps_await_async
    | |- keeps _ true (await _) _ => apply keeps_await
    | |- keeps _ _ (modify _) _ => apply keeps_modify
    | |- keeps _ _ (Put _ _) _ => split
    | |- keeps _ _ (match ?x with _ => _ end) _ => destruct x
    end.

Section Handlers.
Context (R : Server.t → Server.t → Prop).
Context (R_write : ∀ r w, R w (Server.write r w)).
Context (R_nextId : ∀ n w, R w (Server.with_nextId n w)).

Lemma keeps_calculateStats (t : bool) (text : string) w :
  keeps R t (calculateStats text) w.
Proof.
  unfold calculateStats, countOpenAITokens, countClaudeTokensWithAPI,
    countClaudeTokensApprox, mbind, prog_bind.
  keep.
Qed.

Lemma keeps_tool_handlers (input : option Input.t) w :
  keeps R true (handleCountTokens input) w
  ∧ keeps R true (handleGetDirectoryStructure input) w
  ∧ keeps R true (handlePackRemoteRepository input) w
  ∧ keeps R true (handleProcessWithSecurity input) w.
Proof.
  unfold handleCountTokens, handleGetDirectoryStructure,
    handlePackRemoteRepository, handleProcessWithSecurity, mbind, prog_bind.
  repeat split; keep; apply keeps_calculateStats.
Qed.

Lemma keeps_handleGenerateMarkdown (input : option Input.t) w :
  (∀ i, input = Some i → Input.ignorePatterns i = None)
  ∨ (∀ s w, R w (Server.with_settings s w)) →
  keeps R true (handleGenerateMarkdown input) w.
Proof.
  intros Hsettings. unfold handleGenerateMarkdown, mbind, prog_bind.
  destruct input as [i|]; [|done].
  destruct (negb (truthy_str (Input.folderPath i))); [done|].
  destruct (Input.ignorePatterns i) as [override|] eqn:Hoverride.
  - destruct Hsettings as [Hnone | Hsettings].
    { by rewrite (Hnone i eq_refl) in Hoverride. }
    keep; try apply keeps_calculateStats; apply Hsettings.
  - keep; apply keeps_calculateStats.
Qed.

Lemma keeps_sendMessage (t : bool) (r : response) w :
  keeps R t (sendMessage r) w.
Proof. by apply keeps_modify. Qed.
End Handlers.

Section Dispatcher.
Context (R : Server.t → Server.t → Prop).
Context (R_write : ∀ r w, R w (Server.write r w)).
Context (R_nextId : ∀ n w, R w (Server.with_nextId n w)).

Lemma keeps_sendInitializeResult (t : bool) (id : jsval) w :
  keeps R t (sendInitializeResult id) w.
Proof.
  unfold sendInitializeResult, getNextId, sendResult, mbind, prog_bind.
  apply keeps_bind; [|by intros; apply keeps_sendMessage].
  destruct (truthy _); [done|]. by split.
Qed.

Lemma keeps_handleResourcesGet (m : Message.t) w :
  keeps R false (handleResourcesGet m) w.
Proof.
  unfold handleResourcesGet, sendResult, sendErrorResponse, mbind, prog_bind.
  destruct (negb _); [by apply keeps_sendMessage|].
  apply (keeps_try_catch _ _ true); [|by intros; apply keeps_sendMessage].
  destruct (strict_eq _ _); [|by apply keeps_sendMessage].
  apply keeps_bind_get. by apply keeps_sendMessage.
Qed.

Lemma keeps_handleToolsCall (m : Message.t) w :
  (strict_eq (Params.name (default Params.empty (Message.params m)))
             (VStr "generate_markdown") = true →
   ∀ i, Params.input (default Params.empty (Message.params m)) = Some i →
        Input.ignorePatterns i = None)
  ∨ (∀ s w, R w (Server.with_settings s w)) →
  keeps R false (handleToolsCall m) w.
Proof.
  intros Hsettings.
  unfold handleToolsCall, sendResult, sendErrorResponse, mbind, prog_bind.
  destruct (negb _); [by apply keeps_sendMessage|].
  apply (keeps_try_catch _ _ true); [|by intros; apply keeps_sendMessage].
  destruct (keeps_tool_handlers R
              (Params.input (default Params.empty (Message.params m))) w)
    as (Hcount & Hdir & Hpack & Hsec).
  destruct (strict_eq _ (VStr "generate_markdown")) eqn:Hname.
  { apply keeps_bind; [|by intros; apply keeps_sendMessage].
    apply keeps_await_async, keeps_handleGenerateMarkdown.
    destruct Hsettings as [Hnone | Hany]; [left | by right].
    intros i Hi. by apply Hnone. }
  repeat match goal with
    | |- context [if strict_eq ?a ?b then _ else _] =>
        destruct (strict_eq a b);
        [apply keeps_bind; [|by intros; apply keeps_sendMessage];
         by apply keeps_await_async|]
    end.
  by apply keeps_sendMessage.
Qed.

Lemma keeps_handleJsonRpcMessage (m : Message.t) w :
  override_of m = None ∨ (∀ s w, R w (Server.with_settings s w)) →
  keeps R false (handleJsonRpcMessage m) w.
Proof.
  intros Hsettings.
  unfold handleJsonRpcMessage, sendResult, sendErrorResponse, handleToolsList,
    handleResourcesList, sendResult.
  destruct (strict_eq (Message.jsonrpc m) (VStr "2.0")) eqn:Hrpc; cbn [negb];
    [|by apply keeps_sendMessage].
  destruct (truthy (Message.method m)); [|done].
  apply (keeps_try_catch _ _ true); [|by intros; apply keeps_sendMessage].
  destruct (strict_eq _ (VStr "initialize"));
    [by apply keeps_sendInitializeResult|].
  destruct (strict_eq _ (VStr "shutdown")); [by apply keeps_sendMessage|].
  destruct (strict_eq _ (VStr "tools/list")); [by apply keeps_sendMessage|].
  destruct (strict_eq _ (VStr "tools/call")) eqn:Hcall.
  { apply keeps_await_async, keeps_weaken, keeps_handleToolsCall.
    destruct Hsettings as [Hnone | Hany]; [left | by right].
    intros Hname i Hi. unfold override_of in Hnone.
    rewrite Hrpc, Hcall in Hnone. cbn [andb] in Hnone.
    destruct (Message.params m) as [params|]; [|done].
    simpl in Hname, Hi. by rewrite Hname, Hi in Hnone. }
  destruct (strict_eq _ (VStr "resources/list")); [by apply keeps_sendMessage|].
  destruct (strict_eq _ (VStr "resources/get"));
    [|by apply keeps_sendMessage].
  apply keeps_await_async, keeps_weaken, keeps_handleResourcesGet.
Qed.
End Dispatcher.

Section Answering.
Context (P : response → Prop) (id : jsval).
Context (P_id : ∀ r, response_id r = id → P r).

Lemma owes_handleToolsCall (m : Message.t) w :
  Message.id m = id → owes P false (handleToolsCall m) w.
Proof.
  intros Hid.
  unfold handleToolsCall, sendResult, sendErrorResponse, mbind, prog_bind.
  rewrite Hid.
  destruct (negb _); [by apply owes_sendMessage, P_id|].
  apply (owes_try_catch _ _ true); [|by intros; apply owes_sendMessage, P_id].
  destruct (keeps_tool_handlers same_output
              (Params.input (default Params.empty (Message.params m))) w)
    as (Hcount & Hdir & Hpack & Hsec).
  repeat match goal with
    | |- context [if strict_eq ?a ?b then _ else _] =>
        destruct (strict_eq a b);
        [apply owes_after; [|by intros; apply owes_sendMessage, P_id];
         apply keeps_await_async;
         first [done | apply keeps_handleGenerateMarkdown; by right]
        |]
    end.
  by apply owes_sendMessage, P_id.
Qed.

Lemma owes_handleResourcesGet (m : Message.t) w :
  Message.id m = id → owes P false (handleResourcesGet m) w.
Proof.
  intros Hid.
  unfold handleResourcesGet, sendResult, sendErrorResponse, mbind, prog_bind.
  rewrite Hid.
  destruct (negb _); [by apply owes_sendMessage, P_id|].
  apply (owes_try_catch _ _ true); [|by intros; apply owes_sendMessage, P_id].
  destruct (strict_eq _ _); [|by apply owes_sendMessage, P_id].
  apply owes_after; [done|]. intros a w'. by apply owes_sendMessage, P_id.
Qed.
End Answering.

Lemma owes_sendInitializeResult (P : response → Prop) (id : jsval) w :
  (truthy id = true → ∀ payload, P (ResultResponse id payload)) →
  (truthy id = false → ∀ r, P r) →
  owes P false (sendInitializeResult id) w.
Proof.
  intros Hown Hfresh.
  unfold sendInitializeResult, getNextId, sendResult, mbind, prog_bind.
  assert (truthy match id with VUndefined => VNull | _ => id end = truthy id)
    as Htruthy by by destruct id.
  destruct (truthy id) eqn:Hid.
  - assert (match id with VUndefined => VNull | _ => id end = id) as ->
      by by destruct id.
    rewrite Hid. cbn [bind]. by apply owes_sendMessage, Hown.
  - rewrite Htruthy. apply owes_after.
    + cbn [bind get keeps]. by split.
    + intros a w'. by apply owes_sendMessage, Hfresh.
Qed.

(** The program of a message that demands a response owes exactly that. *)
Lemma owes_handleJsonRpcMessage (m : Message.t) w :
  demands_response m = true →
  owes (answers m) false (handleJsonRpcMessage m) w.
Proof.
  unfold demands_response. intros Hdemands.
  assert (∀ r, response_id r = Message.id m → answers m r) as Hid
    by by intros r Hr _.
  unfold handleJsonRpcMessage, sendResult, sendErrorResponse, handleToolsList,
    handleResourcesList, sendResult.
  destruct (strict_eq (Message.jsonrpc m) (VStr "2.0")) eqn:Hrpc; cbn [negb];
    [|by apply owes_sendMessage, Hid].
  cbn [negb orb] in Hdemands. rewrite Hdemands.
  apply (owes_try_catch _ _ true); [|by intros; apply owes_sendMessage, Hid].
  destruct (strict_eq _ (VStr "initialize")) eqn:Hinit.
  { apply owes_weaken, owes_sendInitializeResult.
    - intros _ payload. by apply Hid.
    - intros Hfalsy r. unfold answers, takes_fresh_id.
      by rewrite Hrpc, Hinit, Hfalsy. }
  destruct (strict_eq _ (VStr "shutdown")); [by apply owes_sendMessage, Hid|].
  destruct (strict_eq _ (VStr "tools/list")); [by apply owes_sendMessage, Hid|].
  destruct (strict_eq _ (VStr "tools/call")).
  { by apply owes_await_async, owes_weaken,
      (owes_handleToolsCall _ (Message.id m)). }
  destruct (strict_eq _ (VStr "resources/list"));
    [by apply owes_sendMessage, Hid|].
  destruct (strict_eq _ (VStr "resources/get"));
    [|by apply owes_sendMessage, Hid].
  by apply owes_await_async, owes_weaken,
    (owes_handleResourcesGet _ (Message.id m)).
Qed.

(** ** The event loop as a whole *)

Lemma loop_keeps_turn (R : Server.t → Server.t → Prop)
    `{!Reflexive R, !Transitive R} (tokenizer : env) (a : action)
    (l l' : Loop.t) :
  loop_keeps R l → turn tokenizer a l = Some l' →
  loop_keeps R l' ∧ R (Loop.world l) (Loop.world l').
Proof.
  unfold loop_keeps. intros Hl Hturn.
  assert (∀ i p, is_Some (Loop.tasks l !! i) → keeps R false p (Loop.world l) →
                 Forall (λ t, match t with
                              | Waiting m =>
                                  ∀ w, keeps R false (handleJsonRpcMessage m) w
                              | Running p => keeps_paused R false p
                              end) (Loop.tasks (advance tokenizer i p l))
                 ∧ R (Loop.world l) (Loop.world (advance tokenizer i p l)))
    as Hadvance.
  { intros i p Hi Hp. unfold advance.
    destruct (run_turn_keeps R tokenizer false p (Loop.world l) [] Hp)
      as [HR Hp'].
    destruct (run_turn tokenizer p (Loop.world l) []) as [[p' w'] calls].
    simpl in *. split; [|done]. by apply Forall_insert. }
  rewrite Forall_lookup in Hl.
  destruct a as [i | i answer]; simpl in Hturn.
  - destruct (Loop.tasks l !! i) as [[m | p] |] eqn:Htask; [|done..].
    injection Hturn as <-. apply Hadvance; [by rewrite Htask|].
    apply (Hl i _ Htask).
  - destruct (Loop.tasks l !! i) as [[m | [o | c k | k]] |] eqn:Htask;
      [done.. | | | done]; injection Hturn as <-;
      (apply Hadvance; [by rewrite Htask|]); apply (Hl i _ Htask).
Qed.

Lemma loop_keeps_turns (R : Server.t → Server.t → Prop)
    `{!Reflexive R, !Transitive R} (tokenizer : env) (schedule : list action)
    (l l' : Loop.t) :
  loop_keeps R l → turns tokenizer schedule l = Some l' →
  R (Loop.world l) (Loop.world l').
Proof.
  revert l. induction schedule as [| a schedule IH]; intros l Hl Hturns;
    simpl in Hturns.
  - by injection Hturns as <-.
  - destruct (turn tokenizer a l) as [l1|] eqn:Hturn; [|done].
    destruct (loop_keeps_turn R tokenizer a l l1 Hl Hturn) as [Hl1 HR].
    etrans; [exact HR|]. by apply IH.
Qed.

(** X13. Only a [generate_markdown] request that supplies an override
    writes the shared settings. When none of the requests read is one,
    the settings are, after any number of turns of the event loop in any
    order and whatever the collaborators answer, the settings the engine
    started with. *)
Theorem settings_untouched_without_override (tokenizer : env) (w : Server.t)
    (messages : list Message.t) (schedule : list action) (l : Loop.t) :
  Forall (λ m, override_of m = None) messages →
  turns tokenizer schedule (initial w messages) = Some l →
  Server.settings (Loop.world l) = Server.settings w.
Proof.
  intros Hnone Hturns.
  apply (loop_keeps_turns same_settings tokenizer schedule
           (initial w messages) l); [|done].
  unfold loop_keeps, initial. simpl. apply Forall_fmap.
  eapply Forall_impl; [exact Hnone|]. intros m Hm w'. simpl.
  apply keeps_handleJsonRpcMessage; [done | done | by left].
Qed.

Lemma settings_untouched_without_override_witness :
  ∃ l,
    turns Scenario.disk Plain.interleaved
          (initial Scenario.server Plain.requests) = Some l
    ∧ Server.settings (Loop.world l) = Server.settings Scenario.server.
Proof.
  eexists. split; [reflexivity|].
  apply (settings_untouched_without_override Scenario.disk Scenario.server
           Plain.requests Plain.interleaved).
  - by repeat constructor.
  - reflexivity.
Defined.

(** ** One response for each request, whatever the interleaving *)

Lemma run_turn_due {A} (tokenizer : env) (m : Message.t)
    (a : option response) (p : prog A) w calls :
  due m a p w →
  ∃ a',
    due_paused m a' (run_turn tokenizer p w calls).1.1
    ∧ ((a' = a
        ∧ Server.stdout (run_turn tokenizer p w calls).1.2 = Server.stdout w)
       ∨ (a = None
          ∧ ∃ r, a' = Some r
                 ∧ Server.stdout (run_turn tokenizer p w calls).1.2
                   = Server.stdout w ++ [r])).
Proof.
  unfold due, due_paused. intros Hdue. destruct a as [r|].
  - destruct Hdue as (Hdemands & Hr & Hp).
    destruct (run_turn_keeps same_output tokenizer false p w calls Hp)
      as [Hsame Hp'].
    exists (Some r). split; [done|]. by left.
  - destruct (demands_response m) eqn:Hdemands.
    + destruct (run_turn_owes (answers m) tokenizer false p w calls Hdue)
        as [[Hsame Hp'] | (r & Hr & Hout & Hp')].
      * exists None. split; [done|]. by left.
      * exists (Some r). split; [done|]. right. split; [done|]. by exists r.
    + destruct (run_turn_keeps same_output tokenizer false p w calls Hdue)
        as [Hsame Hp'].
      exists None. split; [done|]. by left.
Qed.

Lemma due_paused_resume {A} (m : Message.t) (a : option response)
    (p : paused A) :
  due_paused m a p →
  match p with
  | Settled _ => True
  | AtCall c k => ∀ o w, due m a (k o) w
  | AtTick k => ∀ w, due m a k w
  end.
Proof.
  unfold due_paused, due. destruct p as [o | c k | k]; [done | |];
    destruct a as [r|]; try destruct (demands_response m); simpl;
    intuition auto.
Qed.

Lemma omap_pay (paid : list (option response)) (i : nat) (r : response) :
  paid !! i = Some None →
  omap id (<[i := Some r]> paid) ≡ₚ omap id paid ++ [r].
Proof.
  revert i. induction paid as [| a paid IH]; intros [| i] Hi; simpl in *;
    try done.
  - injection Hi as ->. simpl. apply Permutation_cons_append.
  - destruct a as [r'|]; simpl; [|by apply IH].
    constructor. by apply IH.
Qed.

Lemma ledger_advance (tokenizer : env) (messages : list Message.t)
    (w : Server.t) (l : Loop.t) (paid : list (option response)) (i : nat)
    (m : Message.t) (a : option response) (p : prog unit) :
  ledger messages w l paid →
  messages !! i = Some m → paid !! i = Some a →
  due m a p (Loop.world l) →
  ∃ paid', ledger messages w (advance tokenizer i p l) paid'.
Proof.
  intros (Htasks & Hpaid & (written & Hout & Hperm) & Haccounts) Hm Ha Hdue.
  assert (i < length messages)%nat as Hi by by eapply lookup_lt_Some.
  unfold advance.
  destruct (run_turn_due tokenizer m a p (Loop.world l) [] Hdue)
    as (a' & Hdue' & Hstdout).
  destruct (run_turn tokenizer p (Loop.world l) []) as [[p' w'] calls].
  simpl in *. exists (<[i := a']> paid). unfold ledger. simpl.
  split; [by rewrite length_insert|]. split; [by rewrite length_insert|].
  split.
  - destruct Hstdout as [[-> Hsame] | (-> & r & -> & Hmore)].
    + exists written. rewrite Hsame. split; [done|].
      by rewrite list_insert_id.
    + exists (written ++ [r]). rewrite Hmore, Hout, <- app_assoc.
      split; [done|]. rewrite omap_pay by done. by rewrite Hperm.
  - intros j mj Hj. simpl. destruct (decide (j = i)) as [-> | Hne].
    + rewrite !list_lookup_insert_eq by lia.
      rewrite Hm in Hj. by injection Hj as <-.
    + rewrite !list_lookup_insert_ne by done. by apply Haccounts.
Qed.

Lemma ledger_turn (tokenizer : env) (messages : list Message.t)
    (w : Server.t) (a : action) (l l' : Loop.t)
    (paid : list (option response)) :
  ledger messages w l paid → turn tokenizer a l = Some l' →
  ∃ paid', ledger messages w l' paid'.
Proof.
  intros Hledger Hturn.
  pose proof Hledger as (Htasks & Hpaid & _ & Haccounts).
  assert (∀ i t, Loop.tasks l !! i = Some t →
            ∃ m b, messages !! i = Some m ∧ paid !! i = Some b) as Hentry.
  { intros i t Hi. apply lookup_lt_Some in Hi.
    destruct (lookup_lt_is_Some_2 messages i) as [m Hm]; [lia|].
    destruct (lookup_lt_is_Some_2 paid i) as [b Hb]; [lia|]. by eauto. }
  destruct a as [i | i answer]; simpl in Hturn.
  - destruct (Loop.tasks l !! i) as [[m0 | p] |] eqn:Htask; [|done..].
    injection Hturn as <-.
    destruct (Hentry i _ Htask) as (m & b & Hm & Hb).
    specialize (Haccounts i m Hm). rewrite Htask, Hb in Haccounts.
    destruct b as [r|]; [done|]. subst m0.
    eapply ledger_advance; [done.. |]. unfold due.
    destruct (demands_response m) eqn:Hdemands.
    + by apply owes_handleJsonRpcMessage.
    + unfold demands_response in Hdemands. unfold handleJsonRpcMessage.
      apply orb_false_iff in Hdemands as [-> ->]. done.
  - destruct (Loop.tasks l !! i) as [[m0 | [o | c k | k]] |] eqn:Htask;
      [done.. | | | done]; injection Hturn as <-;
      destruct (Hentry i _ Htask) as (m & b & Hm & Hb);
      specialize (Haccounts i m Hm); rewrite Htask, Hb in Haccounts;
      apply due_paused_resume in Haccounts;
      (eapply ledger_advance; [done.. |]); apply Haccounts.
Qed.

Lemma ledger_turns (tokenizer : env) (messages : list Message.t)
    (w : Server.t) (schedule : list action) (l l' : Loop.t)
    (paid : list (option response)) :
  ledger messages w l paid → turns tokenizer schedule l = Some l' →
  ∃ paid', ledger messages w l' paid'.
Proof.
  revert l paid. induction schedule as [| a schedule IH];
    intros l paid Hledger Hturns; simpl in Hturns.
  - injection Hturns as <-. by exists paid.
  - destruct (turn tokenizer a l) as [l1|] eqn:Hturn; [|done].
    destruct (ledger_turn tokenizer messages w a l l1 paid Hledger Hturn)
      as [paid1 Hledger1].
    by eapply IH.
Qed.

Lemma ledger_initial (w : Server.t) (messages : list Message.t) :
  ledger messages w (initial w messages) (replicate (length messages) None).
Proof.
  unfold ledger, initial. simpl.
  split; [by rewrite length_fmap|]. split; [by rewrite length_replicate|].
  split.
  - exists []. rewrite app_nil_r. split; [done|].
    induction (length messages); simpl; done.
  - intros j m Hj. simpl. rewrite list_lookup_fmap, Hj. simpl.
    rewrite lookup_replicate_2; [done|]. by eapply lookup_lt_Some.
Qed.

(** X14. Whatever the order in which the event loop runs the requests it
    has read and whatever the collaborators answer, the output is at every
    moment the output the engine started with followed by at most one
    response for each message: a response is never written for a message
    that has a valid envelope and no method, and a response written for a
    message carries the id of that message (unless it is an [initialize]
    with a falsy id). Once every task has settled, every message that
    demands a response has exactly one. *)
Theorem every_request_answered_once (tokenizer : env) (w : Server.t)
    (messages : list Message.t) (schedule : list action) (l : Loop.t) :
  turns tokenizer schedule (initial w messages) = Some l →
  ∃ (paid : list (option response)) (written : list response),
    Server.stdout (Loop.world l) = Server.stdout w ++ written
    ∧ written ≡ₚ omap id paid
    ∧ Forall2 (λ m a, match a with
                      | Some r => demands_response m = true ∧ answers m r
                      | None => True
                      end) messages paid
    ∧ (Forall settled (Loop.tasks l) →
       Forall2 (λ m a, demands_response m = true → is_Some a) messages paid).
Proof.
  intros Hturns.
  destruct (ledger_turns tokenizer messages w schedule _ l _
              (ledger_initial w messages) Hturns)
    as (paid & Htasks & Hpaid & (written & Hout & Hperm) & Haccounts).
  exists paid, written. split; [done|]. split; [done|]. split.
  - apply Forall2_same_length_lookup_2; [done|].
    intros j m a Hm Ha. specialize (Haccounts j m Hm). rewrite Ha in Haccounts.
    destruct a as [r|]; [|done].
    destruct (Loop.tasks l !! j) as [[m' | p] |]; [done | | done].
    by destruct Haccounts as (? & ? & _).
  - intros Hsettled. rewrite Forall_lookup in Hsettled.
    apply Forall2_same_length_lookup_2; [done|].
    intros j m a Hm Ha Hdemands. specialize (Haccounts j m Hm).
    rewrite Ha in Haccounts. destruct a as [r|]; [by eexists|].
    destruct (Loop.tasks l !! j) as [[m' | p] |] eqn:Htask; [| | done].
    + by destruct (Hsettled j _ Htask).
    + specialize (Hsettled j _ Htask). unfold due_paused in Haccounts.
      rewrite Hdemands in Haccounts.
      by destruct p as [[] | |].
Qed.

Lemma every_request_answered_once_witness :
  ∃ l (paid : list (option response)) (written : list response),
    turns Scenario.disk Scenario.overlapping
          (initial Scenario.server Scenario.requests) = Some l
    ∧ Server.stdout (Loop.world l) = Server.stdout Scenario.server ++ written
    ∧ written ≡ₚ omap id paid
    ∧ length paid = 2%nat.
Proof.
  eexists.
  destruct (every_request_answered_once Scenario.disk Scenario.server
              Scenario.requests Scenario.overlapping _ eq_refl)
    as (paid & written & Hout & Hperm & Hpaid & _).
  exists paid, written. split; [reflexivity|]. split; [exact Hout|].
  split; [exact Hperm|].
  apply Forall2_length in Hpaid. by rewrite <- Hpaid.
Defined.

(** ** The message framer *)

Lemma app_cons (c : Ascii.ascii) (a b : string) :
  String c a +:+ b = String c (a +:+ b).
Proof. reflexivity. Qed.

Lemma app_empty (b : string) : "" +:+ b = b.
Proof. reflexivity. Qed.

Lemma string_app_assoc (a b c : string) : (a +:+ b) +:+ c = a +:+ b +:+ c.
Proof.
  induction a as [| x a IH]; [done|]. by rewrite !app_cons, IH.
Qed.

Lemma string_length_app (a b : string) :
  String.length (a +:+ b) = (String.length a + String.length b)%nat.
Proof.
  induction a as [| x a IH]; [done|]. rewrite app_cons. simpl. by rewrite IH.
Qed.

Lemma substring_all (s : string) : String.substring 0 (String.length s) s = s.
Proof. induction s as [| c s IH]; simpl; [done | by rewrite IH]. Qed.

Lemma substring_prefix (a b : string) :
  String.substring 0 (String.length a) (a +:+ b) = a.
Proof.
  induction a as [| c a IH]; simpl.
  - by destruct b.
  - by rewrite IH.
Qed.

Lemma substring_suffix (a b : string) :
  String.substring (String.length a) (String.length b) (a +:+ b) = b.
Proof.
  induction a as [| c a IH]; simpl; [apply substring_all | done].
Qed.

Lemma index_cons (c : Ascii.ascii) (s : string) :
  String.index 0 LF (String c s)
  = if Ascii.eqb c newline then Some 0%nat
    else S <$> String.index 0 LF s.
Proof.
  unfold LF. cbn [String.index String.prefix].
  destruct (Ascii.ascii_dec newline c) as [<- | Hne].
  - rewrite Ascii.eqb_refl. by destruct s.
  - assert (Ascii.eqb c newline = false) as ->.
    { apply Ascii.eqb_neq. by intros ->. }
    by destruct (String.index 0 (String newline "") s).
Qed.

Lemma index_unbroken (s : string) :
  unbroken s = true → String.index 0 LF s = None.
Proof.
  induction s as [| c s IH]; [done|]. cbn [unbroken].
  intros [Hc Hs]%andb_true_iff. rewrite index_cons, IH by done.
  by apply negb_true_iff in Hc as ->.
Qed.

Lemma index_first_line (a rest : string) :
  unbroken a = true →
  String.index 0 LF (a +:+ LF +:+ rest) = Some (String.length a).
Proof.
  induction a as [| c a IH]; intros Ha.
  - rewrite app_empty. unfold LF at 2. rewrite app_cons, index_cons.
    by rewrite Ascii.eqb_refl.
  - cbn [unbroken] in Ha. apply andb_true_iff in Ha as [Hc Ha].
    rewrite app_cons, index_cons, IH by done.
    by apply negb_true_iff in Hc as ->.
Qed.

Lemma substring_first_line (a rest : string) :
  String.substring 0 (String.length a) (a +:+ LF +:+ rest) = a.
Proof. apply substring_prefix. Qed.

Lemma substring_after_line (a rest : string) :
  String.substring (String.length a + 1)
    (String.length (a +:+ LF +:+ rest) - (String.length a + 1))
    (a +:+ LF +:+ rest)
  = rest.
Proof.
  rewrite <- string_app_assoc.
  replace (String.length a + 1)%nat with (String.length (a +:+ LF))
    by by rewrite string_length_app.
  replace (String.length ((a +:+ LF) +:+ rest) - String.length (a +:+ LF))%nat
    with (String.length rest) by (rewrite string_length_app; lia).
  apply substring_suffix.
Qed.

(** The loop on a buffer that is written out as its lines. *)
Lemma drain_framed (fuel : nat) (lines : list string) (tail : string) :
  Forall (λ line, unbroken line = true) lines →
  unbroken tail = true →
  (length lines ≤ fuel)%nat →
  drain fuel (framed lines tail) = (filter (λ l, handed_on l = true) lines, tail).
Proof.
  intros Hlines Htail. revert fuel.
  induction Hlines as [| line lines Hline Hlines IH]; intros fuel Hfuel.
  - cbn [framed filter list_filter]. destruct fuel; [done|]. cbn [drain].
    by rewrite index_unbroken.
  - destruct fuel as [| fuel]; [simpl in Hfuel; lia|].
    cbn [framed drain].
    rewrite index_first_line, substring_first_line, substring_after_line
      by done.
    rewrite IH by (simpl in Hfuel; lia).
    rewrite filter_cons. unfold handed_on.
    by destruct (truthy (VStr (trim line))).
Qed.

Lemma frames_spec (s : string) :
  Forall (λ line, unbroken line = true) (frames s).1
  ∧ unbroken (frames s).2 = true
  ∧ framed (frames s).1 (frames s).2 = s
  ∧ (length (frames s).1 ≤ String.length s)%nat.
Proof.
  induction s as [| c s (Hlines & Htail & Hs & Hlen)].
  { split; [constructor|]. by repeat split. }
  cbn [frames]. destruct (frames s) as [lines tail]. simpl in *.
  destruct (Ascii.eqb c newline) eqn:Hc.
  - apply Ascii.eqb_eq in Hc as ->. simpl.
    split; [by constructor|]. split; [done|]. split; [by rewrite Hs | lia].
  - destruct lines as [| line lines]; simpl in *.
    + split; [done|]. split; [by rewrite Hc|]. split; [by rewrite Hs | lia].
    + inversion Hlines as [| ? ? Hline Hrest]; subst.
      split; [|split; [done|split; [done | lia]]].
      constructor; [|done]. cbn [unbroken]. by rewrite Hc.
Qed.

Lemma framed_app (lines lines' : list string) (tail : string) :
  framed (lines ++ lines') tail = framed lines (framed lines' tail).
Proof. induction lines as [| l lines IH]; simpl; [done | by rewrite IH]. Qed.

Lemma framed_more (lines : list string) (tail data : string) :
  framed lines tail +:+ data = framed lines (tail +:+ data).
Proof.
  induction lines as [| l lines IH]; [done|].
  cbn [framed]. by rewrite !string_app_assoc, IH.
Qed.

Lemma framed_length (lines : list string) (tail : string) :
  (length lines ≤ String.length (framed lines tail))%nat.
Proof.
  induction lines as [| l lines IH]; simpl; [lia|].
  rewrite !string_length_app. simpl. lia.
Qed.

(** The framer on a buffer and data that together are given lines and a
    rest. *)
Lemma handleStdinData_framed (messageBuffer data : string)
    (lines : list string) (tail : string) :
  Forall (λ line, unbroken line = true) lines →
  unbroken tail = true →
  messageBuffer +:+ data = framed lines tail →
  handleStdinData messageBuffer data
  = (filter (λ l, handed_on l = true) lines, tail).
Proof.
  intros Hlines Htail Hdata. unfold handleStdinData. rewrite Hdata.
  apply drain_framed; [done | done | apply framed_length].
Qed.

(** X15. The framer undoes the framing of the transport writer. When the
    buffer followed by the data read is a sequence of lines, each followed
    by a line terminator, and a rest without terminator, [handleStdinData]
    hands on exactly those lines that are not blank, in order, and keeps
    the rest as its buffer. *)
Theorem framer_inverts_framing (messageBuffer data : string)
    (lines : list string) (tail : string) :
  Forall (λ line, unbroken line = true) lines →
  unbroken tail = true →
  messageBuffer +:+ data = framed lines tail →
  handleStdinData messageBuffer data
  = (filter (λ l, handed_on l = true) lines, tail).
Proof. apply handleStdinData_framed. Qed.

Lemma framer_inverts_framing_witness :
  handleStdinData "[1," ("2]" +:+ LF +:+ "  " +:+ LF +:+ "[3")
  = (["[1,2]"], "[3").
Proof.
  apply (framer_inverts_framing "[1," ("2]" +:+ LF +:+ "  " +:+ LF +:+ "[3")
           ["[1,2]"; "  "] "[3").
  - by repeat constructor.
  - reflexivity.
  - reflexivity.
Defined.

(** What [handleStdinData] computes, in terms of the lines of the buffer. *)
Lemma handleStdinData_frames (messageBuffer data : string) :
  handleStdinData messageBuffer data
  = (filter (λ l, handed_on l = true) (frames (messageBuffer +:+ data)).1,
     (frames (messageBuffer +:+ data)).2).
Proof.
  destruct (frames_spec (messageBuffer +:+ data))
    as (Hlines & Htail & Hframed & _).
  by apply handleStdinData_framed.
Qed.

(** X16. Where the input stream is cut into chunks does not matter: reading
    two chunks one after the other hands on the same lines, in the same
    order, and leaves the same buffer as reading them as one chunk. *)
Theorem framer_ignores_chunk_boundaries (messageBuffer data1 data2 : string) :
  handleStdinData messageBuffer (data1 +:+ data2)
  = (let '(lines1, buffer1) := handleStdinData messageBuffer data1 in
     let '(lines2, buffer2) := handleStdinData buffer1 data2 in
     (lines1 ++ lines2, buffer2)).
Proof.
  rewrite (handleStdinData_frames messageBuffer data1).
  destruct (frames_spec (messageBuffer +:+ data1))
    as (Hlines1 & Htail1 & Hframed1 & _).
  destruct (frames (messageBuffer +:+ data1)) as [lines1 tail1].
  simpl in *. rewrite (handleStdinData_frames tail1 data2).
  destruct (frames_spec (tail1 +:+ data2)) as (Hlines2 & Htail2 & Hframed2 & _).
  destruct (frames (tail1 +:+ data2)) as [lines2 tail2]. simpl in *.
  rewrite <- filter_app.
  apply handleStdinData_framed; [by apply Forall_app | done |].
  by rewrite <- string_app_assoc, <- Hframed1, framed_more, <- Hframed2,
    framed_app.
Qed.

Lemma trimStart_blank (s : string) : trimStart s = "" ↔ blank s = true.
Proof.
  induction s as [| c s IH]; [done|]. cbn [trimStart blank].
  destruct (is_white_space c); [done|]. by split.
Qed.

Lemma trimEnd_blank (s : string) : trimEnd s = "" ↔ blank s = true.
Proof.
  induction s as [| c s IH]; [done|]. cbn [trimEnd blank].
  destruct (String.eqb_spec (trimEnd s) "") as [Hs | Hs].
  - destruct (is_white_space c); simpl; [|by split].
    split; [intros _; by apply IH | done].
  - simpl. split; [done|]. intros [_ Hb]%andb_true_iff. by apply IH in Hb.
Qed.

Lemma trimStart_not_blank (s : string) :
  trimStart s ≠ "" → blank (trimStart s) = false.
Proof.
  induction s as [| c s IH]; [done|]. cbn [trimStart].
  destruct (is_white_space c) eqn:Hc; [done|]. intros _. cbn [blank].
  by rewrite Hc.
Qed.

Lemma handed_on_blank (line : string) :
  handed_on line = negb (blank line).
Proof.
  unfold handed_on, trim. cbn [truthy]. f_equal.
  destruct (blank line) eqn:Hblank.
  - apply trimStart_blank in Hblank as ->. reflexivity.
  - apply String.eqb_neq. intros Hend%trimEnd_blank.
    destruct (String.eqb_spec (trimStart line) "") as [Hs | Hs].
    + apply trimStart_blank in Hs. congruence.
    + apply trimStart_not_blank in Hs. congruence.
Qed.

(** X17. After [handleStdinData] the buffer holds no line terminator, so
    it never holds a complete line. Every line handed on is free of
    terminators and holds a character that is not white space; the lines
    that are dropped are exactly those made of white space only. *)
Theorem framer_leaves_no_complete_line (messageBuffer data : string) :
  unbroken (handleStdinData messageBuffer data).2 = true
  ∧ String.index 0 LF (handleStdinData messageBuffer data).2 = None
  ∧ Forall (λ line, unbroken line = true ∧ blank line = false)
           (handleStdinData messageBuffer data).1
  ∧ (handleStdinData messageBuffer data).1
    = filter (λ l, blank l = false) (frames (messageBuffer +:+ data)).1.
Proof.
  rewrite handleStdinData_frames.
  destruct (frames_spec (messageBuffer +:+ data)) as (Hlines & Htail & _ & _).
  simpl. split; [done|]. split; [by apply index_unbroken|].
  assert (∀ lines : list string,
            filter (λ l, handed_on l = true) lines
            = filter (λ l, blank l = false) lines) as Hfilter.
  { intros lines. apply list_filter_iff. intros l.
    rewrite handed_on_blank. by destruct (blank l). }
  rewrite Hfilter. split; [|done].
  apply Forall_forall. intros l [Hl Hin]%list_elem_of_filter. split; [|done].
  rewrite Forall_forall in Hlines. by apply Hlines.
Qed.

(** ** The assembler of the command line *)

Lemma string_app_empty_r (s : string) : s +:+ "" = s.
Proof.
  induction s as [| c s IH]; [done|].
  change (String c s +:+ "") with (String c (s +:+ "")). by rewrite IH.
Qed.

Lemma prefix_app (a b : string) : String.prefix a (a +:+ b) = true.
Proof.
  induction a as [| c a IH]; [by destruct b|].
  change (String c a +:+ b) with (String c (a +:+ b)).
  cbn [String.prefix]. by destruct (Ascii.ascii_dec c c).
Qed.

Section Files.
Variable relative : string → string → string.
Variable extname : string → string.
Variable readFile : string → outcome string.

Local Abbreviation generate :=
  (Cli.generateMarkdownContent relative extname readFile).

Lemma generate_from (rootDir : string) (paths : list string) (content : string) :
  fold_left
    (λ content filePath,
       let relativePath := relative rootDir filePath in
       let content := content +:+ ("## " +:+ relativePath +:+ LF +:+ LF) in
       match readFile filePath with
       | Returned fileContent =>
           let extension := Cli.slice1 (extname filePath) in
           let lang := if truthy (VStr extension) then extension
                       else EmptyString in
           content +:+ ("```" +:+ lang +:+ LF +:+ fileContent +:+ LF
                        +:+ "```" +:+ LF +:+ LF)
       | Thrown message =>
           content +:+ ("Error reading file: " +:+ message +:+ LF +:+ LF)
       end)
    paths content
  = content +:+ generate rootDir paths.
Proof.
  unfold Cli.generateMarkdownContent.
  revert content. induction paths as [| p paths IH]; intros content.
  - by rewrite string_app_empty_r.
  - cbn [fold_left]. rewrite IH. symmetry. rewrite IH. cbv zeta.
    rewrite app_empty.
    destruct (readFile p); by rewrite !string_app_assoc.
Qed.

(** X19. The document of the command-line assembler is made of one section
    per selected path, in the order of the paths: the document for two
    lists of paths one after the other is the document of the first
    followed by that of the second, and no path gives the empty document.
    A section is the heading [## <relative path>] and an empty line,
    followed by the fenced content of the file, or, when the file cannot be
    read, by the line [Error reading file: <message>]: a file that cannot
    be read does not end the document. *)
Theorem document_is_one_section_per_path (rootDir : string)
    (paths paths' : list string) (filePath : string) :
  generate rootDir (paths ++ paths')
  = generate rootDir paths +:+ generate rootDir paths'
  ∧ generate rootDir [] = ""
  ∧ generate rootDir [filePath]
    = "## " +:+ relative rootDir filePath +:+ LF +:+ LF
      +:+ match readFile filePath with
          | Returned fileContent =>
              "```" +:+ Cli.slice1 (extname filePath) +:+ LF
              +:+ fileContent +:+ LF +:+ "```" +:+ LF +:+ LF
          | Thrown message =>
              "Error reading file: " +:+ message +:+ LF +:+ LF
          end.
Proof.
  split; [|split; [done|]].
  - unfold Cli.generateMarkdownContent at 1.
    rewrite fold_left_app. apply generate_from.
  - unfold Cli.generateMarkdownContent. cbn [fold_left]. cbv zeta.
    rewrite app_empty.
    assert ((if truthy (VStr (Cli.slice1 (extname filePath)))
             then Cli.slice1 (extname filePath) else "")
            = Cli.slice1 (extname filePath)) as ->.
    { cbn [truthy].
      by destruct (String.eqb_spec (Cli.slice1 (extname filePath)) "")
        as [-> | ?]. }
    destruct (readFile filePath); by rewrite !string_app_assoc.
Qed.
End Files.
